(** * cmd/agent/dist/utils/subprocess_output.py

    A shallow embedding of [get_subprocess_output], the Python 2 adapter that
    turns a command (a string or an iterable of tokens) into an argument list
    and hands it to the agent's native [_util.get_subprocess_output].

    The embedding follows the interpreter closely enough to talk about what
    the function really does at run time: values and the objects they refer
    to, the iteration protocol behind [for ... in], name resolution, and the
    exceptions raised on the way. *)

From Stdlib Require Import ZArith NArith String Ascii List Bool Lia.
From stdpp Require Import base list.
Import ListNotations.

Local Open Scope string_scope.
Local Open Scope list_scope.

Set Warnings "-register-all".

(** ** Python values *)

Definition loc := nat.

(** An exception instance: its class and its message. *)
Record pyexn := PyExn { exn_class : string; exn_message : string }.

Definition TypeError (msg : string) : pyexn := PyExn "TypeError" msg.
Definition AttributeError (msg : string) : pyexn := PyExn "AttributeError" msg.
Definition RuntimeError (msg : string) : pyexn := PyExn "RuntimeError" msg.
Definition SystemError (msg : string) : pyexn := PyExn "SystemError" msg.

(** What CPython 2 raises when a function body reads a name that is bound
    neither in the module nor among the builtins. *)
Definition NameError (name : string) : pyexn :=
  PyExn "NameError" ("global name '" ++ name ++ "' is not defined")%string.

(** The exception with which [next()] tells a [for] loop that it is
    through. *)
Definition is_StopIteration (e : pyexn) : bool :=
  String.eqb (exn_class e) "StopIteration".

(** Immutable values are carried by value, mutable objects by reference. *)
Inductive pyval :=
| VNone
| VBool (b : bool)
| VInt (z : Z)
| VStr (s : string)              (* str: a byte string *)
| VUnicode (u : list N)          (* unicode: a sequence of code points *)
| VTuple (items : list pyval)
| VCallable (qualname : string)  (* a function or class object, opaque here *)
| VRef (l : loc).

(** A user-defined (new-style) class, reduced to what the iteration protocol
    can see of it: [__iter__], when it is written as a generator function,
    which makes a new generator at every call, one that yields [fst] and
    then either returns or raises [snd]; and [__getitem__], serving the
    indexes of a fixed sequence. An instance of a class whose [__iter__]
    returns the instance itself is an [OIterator] below. *)
Record pyclass := PyClass {
  cls_name : string;
  cls_iter : option (list pyval * option pyexn);
  cls_getitem : option (list pyval)
}.

(** Mutable objects. Sets and dicts keep their entries in iteration order.

    Four of them are iterators, objects whose [__iter__] returns the object
    itself and whose [next()] moves it on:
    - [OGen], a generator, with the values its body has still to yield and
      the exception its body ends with, if it ends with one;
    - [OIterator], any other iterator that holds its own state (a file and
      its lines, an itertools object, an instance of a class that iterates
      over itself), named by its type;
    - [OListIter], the iterator [iter(l)] gives for a list: it holds the
      list it walks, until it is through, and the index it has got to;
    - [ORepeat], [itertools.repeat(x)], which yields [x] for ever.
    The code a generator body or a [next()] method runs besides yielding is
    not part of these objects. *)
Inductive pyobj :=
| OList (items : list pyval)
| OSet (items : list pyval)
| ODict (entries : list (pyval * pyval))
| OGen (pending : list pyval) (fin : option pyexn)
| OInst (cls : pyclass) (inst_dict : list (string * pyval))
| OIterator (type_name : string) (pending : list pyval) (fin : option pyexn)
| OListIter (seq : option loc) (idx : nat)
| ORepeat (x : pyval).

Inductive pytype :=
| TNoneType | TBool | TInt | TBasestring | TStr | TUnicode | TTuple
| TCallable | TList | TSet | TDict | TGenerator
| TClass (cls : pyclass)
| TIterator (type_name : string) | TListIterator | TRepeat.

Definition type_of_obj (o : pyobj) : pytype :=
  match o with
  | OList _ => TList
  | OSet _ => TSet
  | ODict _ => TDict
  | OGen _ _ => TGenerator
  | OInst c _ => TClass c
  | OIterator name _ _ => TIterator name
  | OListIter _ _ => TListIterator
  | ORepeat _ => TRepeat
  end.

(** [type(v)], given the heap the references of [v] point into. *)
Definition type_of (h : list pyobj) (v : pyval) : option pytype :=
  match v with
  | VNone => Some TNoneType
  | VBool _ => Some TBool
  | VInt _ => Some TInt
  | VStr _ => Some TStr
  | VUnicode _ => Some TUnicode
  | VTuple _ => Some TTuple
  | VCallable _ => Some TCallable
  | VRef l => type_of_obj <$> h !! l
  end.

(** [issubclass(t, cls)] for the classes this module tests against. *)
Definition issubclass (t cls : pytype) : bool :=
  match cls, t with
  | TBasestring, (TBasestring | TStr | TUnicode) => true
  | TBasestring, _ => false
  | TStr, TStr | TUnicode, TUnicode | TNoneType, TNoneType | TBool, TBool
  | TInt, TInt | TInt, TBool | TTuple, TTuple | TCallable, TCallable
  | TList, TList | TSet, TSet | TDict, TDict | TGenerator, TGenerator => true
  | _, _ => false
  end.

(** The special methods of each type that matter to iteration. In Python 2
    neither [str] nor [unicode] has [__iter__]: strings are iterable through
    [__getitem__] only. *)
Definition type_attrs (t : pytype) : list string :=
  match t with
  | TStr | TUnicode | TBasestring => ["__getitem__"]
  | TTuple | TList | TDict => ["__iter__"; "__getitem__"]
  | TSet => ["__iter__"]
  | TGenerator | TIterator _ | TListIterator | TRepeat => ["__iter__"; "next"]
  | TClass c =>
      match cls_iter c with Some _ => ["__iter__"] | None => [] end
      ++ match cls_getitem c with Some _ => ["__getitem__"] | None => [] end
  | TNoneType | TBool | TInt | TCallable => []
  end.

(** [hasattr(t, name)] for a type object [t]. *)
Definition hasattr (t : pytype) (name : string) : bool :=
  existsb (String.eqb name) (type_attrs t).

(** A value can be iterated ([iter(v)] succeeds) when its type has
    [__iter__] or, failing that, [__getitem__]. *)
Definition iterable (t : pytype) : bool :=
  hasattr t "__iter__" || hasattr t "__getitem__".

(** ** [split()] without arguments *)

(** Runs of whitespace separate the tokens; no token is empty. [cur] is the
    token being read, last character first. *)
Fixpoint split_ws {A : Type} (isspace : A -> bool) (cur s : list A)
  : list (list A) :=
  match s with
  | [] => match cur with [] => [] | _ => [rev cur] end
  | c :: s' =>
      if isspace c then
        match cur with
        | [] => split_ws isspace [] s'
        | _ => rev cur :: split_ws isspace [] s'
        end
      else split_ws isspace (c :: cur) s'
  end.

(** Whitespace of byte strings: tab, line feed, vertical tab, form feed,
    carriage return, space. *)
Definition Py_ISSPACE (c : ascii) : bool :=
  let n := N_of_ascii c in
  ((9 <=? n) && (n <=? 13) || (n =? 32))%N.

(** Whitespace of unicode strings (CPython 2.7, [_PyUnicode_IsWhitespace]). *)
Definition Py_UNICODE_ISSPACE (n : N) : bool :=
  ((9 <=? n) && (n <=? 13) || (28 <=? n) && (n <=? 32)
   || (n =? 133) || (n =? 160) || (n =? 5760) || (n =? 6158)
   || (8192 <=? n) && (n <=? 8202) || (n =? 8232) || (n =? 8233)
   || (n =? 8239) || (n =? 8287) || (n =? 12288))%N.

Definition str_split (s : string) : list string :=
  string_of_list_ascii <$> split_ws Py_ISSPACE [] (list_ascii_of_string s).

Definition unicode_split (u : list N) : list (list N) :=
  split_ws Py_UNICODE_ISSPACE [] u.

(** ** The module namespace *)

(** What the top-level statements of the module bind: the two imports from
    [_util] and the [def] itself. *)
Definition module_globals : list (string * pyval) :=
  [("subprocess_output", VCallable "_util.get_subprocess_output");
   ("SubprocessOutputEmptyError", VCallable "_util.SubprocessOutputEmptyError");
   ("get_subprocess_output", VCallable "get_subprocess_output")].

(** The builtins the function body refers to. *)
Definition builtins : list (string * pyval) :=
  [("isinstance", VCallable "isinstance");
   ("basestring", VCallable "basestring");
   ("hasattr", VCallable "hasattr");
   ("type", VCallable "type");
   ("TypeError", VCallable "TypeError")].

Fixpoint assoc (name : string) (env : list (string * pyval)) : option pyval :=
  match env with
  | [] => None
  | (k, v) :: env' => if String.eqb name k then Some v else assoc name env'
  end.

(** Resolution of a name that is not local to the function: the module
    first, the builtins next. *)
Definition lookup_global (name : string) : option pyval :=
  match assoc name module_globals with
  | Some v => Some v
  | None => assoc name builtins
  end.

(** ** Iterators *)

(** The iterator a [for] statement holds while it runs. A list iterator
    reads the list again at every step; set and dict iterators also remember
    the size they started from; [ItGen l] is the object at [l] when that
    object is its own iterator. *)
Inductive iterator :=
| ItConst (rest : list pyval)
| ItList (l : loc) (idx : nat)
| ItSet (l : loc) (idx size : nat)
| ItDict (l : loc) (idx size : nat)
| ItGen (l : loc).

(** ** The interpreter state and its monad *)

(** How a computation ends: with a value, with an exception, or cut short
    because the loop ran out of the steps it was allowed. *)
Inductive outcome (A : Type) :=
| Ok (a : A)
| Raise (e : pyexn)
| OutOfFuel.
Arguments Ok {A} a.
Arguments Raise {A} e.
Arguments OutOfFuel {A}.

Definition lift_result (r : pyval + pyexn) : outcome pyval :=
  match r with
  | inl v => Ok v
  | inr e => Raise e
  end.

Section Adapter.

(** The world outside the interpreter, on which subprocesses act. *)
Variable W : Type.

(** [_util.get_subprocess_output], the native function of the agent that
    spawns the process: it takes the argument list and the flag and returns
    the captured output or raises. *)
Variable util_get_subprocess_output :
  list pyval -> pyval -> W -> (pyval + pyexn) * W.

(** [calls] records every invocation of the native function, oldest first. *)
Record state := State {
  heap : list pyobj;
  world : W;
  calls : list (list pyval * pyval)
}.

Definition M (A : Type) : Type := state -> outcome A * state.

Definition ret {A} (a : A) : M A := fun st => (Ok a, st).

Definition raise {A} (e : pyexn) : M A := fun st => (Raise e, st).

Definition out_of_fuel {A} : M A := fun st => (OutOfFuel, st).

Definition bind {A B} (m : M A) (k : A -> M B) : M B :=
  fun st =>
    match m st with
    | (Ok a, st') => k a st'
    | (Raise e, st') => (Raise e, st')
    | (OutOfFuel, st') => (OutOfFuel, st')
    end.

Notation "x <- m ;; k" := (bind m (fun x => k))
  (at level 100, m at next level, right associativity).
Notation "m ;; k" := (bind m (fun _ => k))
  (at level 100, right associativity).

(** Allocation of a new object: it gets the next free location. *)
Definition alloc (o : pyobj) : M pyval :=
  fun st =>
    (Ok (VRef (length (heap st))),
     State (heap st ++ [o]) (world st) (calls st)).

Definition deref (l : loc) : M pyobj :=
  fun st =>
    match heap st !! l with
    | Some o => (Ok o, st)
    | None => (Raise (SystemError "dangling reference"), st)
    end.

Definition store (l : loc) (o : pyobj) : M unit :=
  fun st => (Ok tt, State (<[l := o]> (heap st)) (world st) (calls st)).

(** [type(v)] *)
Definition type_ (v : pyval) : M pytype :=
  fun st =>
    match type_of (heap st) v with
    | Some t => (Ok t, st)
    | None => (Raise (SystemError "dangling reference"), st)
    end.

(** [isinstance(v, cls)] *)
Definition isinstance (v : pyval) (cls : pytype) : M bool :=
  t <- type_ v ;; ret (issubclass t cls).

(** Reading a global name inside the function body. *)
Definition load_global (name : string) : M pyval :=
  match lookup_global name with
  | Some v => ret v
  | None => raise (NameError name)
  end.

(** [v.split()] *)
Definition py_split (v : pyval) : M pyval :=
  match v with
  | VStr s => alloc (OList (VStr <$> str_split s))
  | VUnicode u => alloc (OList (VUnicode <$> unicode_split u))
  | _ => raise (AttributeError "object has no attribute 'split'")
  end.

(** [target.append(arg)] *)
Definition py_append (target arg : pyval) : M unit :=
  match target with
  | VRef l =>
      o <- deref l ;;
      match o with
      | OList items => store l (OList (items ++ [arg]))
      | _ => raise (AttributeError "object has no attribute 'append'")
      end
  | _ => raise (AttributeError "object has no attribute 'append'")
  end.

(** [iter(v)] *)
Definition py_iter (v : pyval) : M iterator :=
  match v with
  | VTuple items => ret (ItConst items)
  | VStr s =>
      ret (ItConst ((fun c => VStr (String c EmptyString))
                      <$> list_ascii_of_string s))
  | VUnicode u => ret (ItConst ((fun c => VUnicode [c]) <$> u))
  | VRef l =>
      o <- deref l ;;
      match o with
      | OList _ => ret (ItList l 0)
      | OSet items => ret (ItSet l 0 (length items))
      | ODict entries => ret (ItDict l 0 (length entries))
      | OGen _ _ | OIterator _ _ _ | OListIter _ _ | ORepeat _ =>
          ret (ItGen l)
      | OInst c _ =>
          match cls_iter c, cls_getitem c with
          | Some (items, fin), _ =>
              g <- alloc (OGen items fin) ;;
              match g with
              | VRef lg => ret (ItGen lg)
              | _ => raise (SystemError "allocation")
              end
          | None, Some items => ret (ItConst items)
          | None, None => raise (TypeError "object is not iterable")
          end
      end
  | VNone | VBool _ | VInt _ | VCallable _ =>
      raise (TypeError "object is not iterable")
  end.

(** How an iterator that holds its own state ends: its body returns, or
    raises. [StopIteration] raised by the body is what [next()] raises
    when the body returns, so the loop takes it for the end. *)
Definition end_of_iteration (fin : option pyexn)
  : M (option (pyval * iterator)) :=
  match fin with
  | None => ret None
  | Some e => if is_StopIteration e then ret None else raise e
  end.

(** One step of an iterator, as the [for] statement sees it: [None] when
    [next()] raises [StopIteration]. *)
Definition py_next (it : iterator) : M (option (pyval * iterator)) :=
  match it with
  | ItConst [] => ret None
  | ItConst (x :: rest) => ret (Some (x, ItConst rest))
  | ItList l i =>
      o <- deref l ;;
      match o with
      | OList items =>
          match items !! i with
          | Some x => ret (Some (x, ItList l (S i)))
          | None => ret None
          end
      | _ => raise (SystemError "list iterator over a non-list")
      end
  | ItSet l i n =>
      o <- deref l ;;
      match o with
      | OSet items =>
          if negb (Nat.eqb (length items) n) then
            raise (RuntimeError "Set changed size during iteration")
          else
            match items !! i with
            | Some x => ret (Some (x, ItSet l (S i) n))
            | None => ret None
            end
      | _ => raise (SystemError "set iterator over a non-set")
      end
  | ItDict l i n =>
      o <- deref l ;;
      match o with
      | ODict entries =>
          if negb (Nat.eqb (length entries) n) then
            raise (RuntimeError "dictionary changed size during iteration")
          else
            match entries !! i with
            | Some (k, _) => ret (Some (k, ItDict l (S i) n))
            | None => ret None
            end
      | _ => raise (SystemError "dict iterator over a non-dict")
      end
  | ItGen l =>
      o <- deref l ;;
      match o with
      | OGen (x :: pending) fin =>
          store l (OGen pending fin) ;; ret (Some (x, ItGen l))
      | OGen [] fin => store l (OGen [] None) ;; end_of_iteration fin
      | OIterator name (x :: pending) fin =>
          store l (OIterator name pending fin) ;; ret (Some (x, ItGen l))
      | OIterator name [] fin =>
          store l (OIterator name [] None) ;; end_of_iteration fin
      | OListIter (Some lseq) i =>
          s <- deref lseq ;;
          match s with
          | OList items =>
              match items !! i with
              | Some x =>
                  store l (OListIter (Some lseq) (S i)) ;;
                  ret (Some (x, ItGen l))
              | None => store l (OListIter None i) ;; ret None
              end
          | _ => raise (SystemError "list iterator over a non-list")
          end
      | OListIter None _ => ret None
      | ORepeat x => ret (Some (x, ItGen l))
      | _ => raise (SystemError "not an iterator")
      end
  end.

(** [for x in <it>: body(x)], one unit of fuel for each step of [it]. *)
Fixpoint for_loop (fuel : nat) (it : iterator) (body : pyval -> M unit)
  : M unit :=
  match fuel with
  | O => out_of_fuel
  | S fuel' =>
      nx <- py_next it ;;
      match nx with
      | None => ret tt
      | Some (x, it') => body x ;; for_loop fuel' it' body
      end
  end.

(** [for x in v: body(x)] *)
Definition for_in (fuel : nat) (v : pyval) (body : pyval -> M unit)
  : M unit :=
  it <- py_iter v ;; for_loop fuel it body.

(** [subprocess_output(args, flag)]: the imported native function called
    on a list object. The call is recorded and its effect on the world
    kept, whether it returns or raises. *)
Definition subprocess_output (args flag : pyval) : M pyval :=
  match args with
  | VRef l =>
      o <- deref l ;;
      match o with
      | OList items =>
          fun st =>
            let (r, w) := util_get_subprocess_output items flag (world st) in
            (lift_result r, State (heap st) w (calls st ++ [(items, flag)]))
      | _ => raise (TypeError "argument list expected")
      end
  | _ => raise (TypeError "argument list expected")
  end.

(** ** The function *)

(** [def get_subprocess_output(command, log, raise_on_empty_output=True)].
    The third argument is [None] when the caller leaves it out. *)
Definition get_subprocess_output (fuel : nat) (command log : pyval)
    (raise_on_empty_output : option pyval) : M pyval :=
  let raise_on_empty_output := default (VBool true) raise_on_empty_output in
  cmd_args <- alloc (OList []) ;;
  is_string <- isinstance command TBasestring ;;
  (if is_string : bool then
     tokens <- py_split command ;;
     for_in fuel tokens (fun arg =>
       _args <- load_global "_args" ;;
       py_append _args arg)
   else
     t <- type_ command ;;
     if hasattr t "__iter__" then
       for_in fuel command (fun arg => py_append cmd_args arg)
     else
       raise (TypeError "command must be a sequence or string")) ;;
  subprocess_output cmd_args raise_on_empty_output.

(** Lines 18 to 26 on their own: the block that builds [cmd_args]. *)
Definition normalize (fuel : nat) (command : pyval) : M pyval :=
  cmd_args <- alloc (OList []) ;;
  is_string <- isinstance command TBasestring ;;
  (if is_string : bool then
     tokens <- py_split command ;;
     for_in fuel tokens (fun arg =>
       _args <- load_global "_args" ;;
       py_append _args arg)
   else
     t <- type_ command ;;
     if hasattr t "__iter__" then
       for_in fuel command (fun arg => py_append cmd_args arg)
     else
       raise (TypeError "command must be a sequence or string")) ;;
  ret cmd_args.

End Adapter.

Arguments State {W} heap world calls.
Arguments heap {W} s.
Arguments world {W} s.
Arguments calls {W} s.
Arguments ret {W A} a st.
Arguments raise {W A} e st.
Arguments out_of_fuel {W A} st.
Arguments bind {W A B} m k st.
Arguments alloc {W} o st.
Arguments deref {W} l st.
Arguments store {W} l o st.
Arguments type_ {W} v st.
Arguments isinstance {W} v cls st.
Arguments load_global {W} name st.
Arguments py_split {W} v st.
Arguments py_append {W} target arg st.
Arguments py_iter {W} v st.
Arguments end_of_iteration {W} fin st.
Arguments py_next {W} it st.
Arguments for_loop {W} fuel it body st.
Arguments for_in {W} fuel v body st.
Arguments subprocess_output {W} util_get_subprocess_output args flag st.
Arguments get_subprocess_output {W} util_get_subprocess_output
  fuel command log raise_on_empty_output st.
Arguments normalize {W} fuel command st.

(** ** Reading commands and heaps *)

(** The tokens of a string command, as the values [split()] returns. *)
Definition tokens_of (command : pyval) : option (list pyval) :=
  match command with
  | VStr s => Some (VStr <$> str_split s)
  | VUnicode u => Some (VUnicode <$> unicode_split u)
  | _ => None
  end.

(** A string that is empty or made of whitespace only. *)
Definition blank (command : pyval) : bool :=
  match command with
  | VStr s => forallb Py_ISSPACE (list_ascii_of_string s)
  | VUnicode u => forallb Py_UNICODE_ISSPACE u
  | _ => false
  end.

(** What iterating [command] produces, when that is finitely many values:
    the values it yields, in order, and the exception its iteration ends
    with, if it ends with one. *)
Definition yields (h : list pyobj) (command : pyval)
  : option (list pyval * option pyexn) :=
  match command with
  | VTuple items => Some (items, None)
  | VRef l =>
      match h !! l with
      | Some (OList items) | Some (OSet items) => Some (items, None)
      | Some (ODict entries) => Some (fst <$> entries, None)
      | Some (OGen pending fin) | Some (OIterator _ pending fin) =>
          Some (pending, fin)
      | Some (OInst c _) => cls_iter c
      | Some (OListIter (Some lseq) i) =>
          match h !! lseq with
          | Some (OList items) => Some (drop i items, None)
          | _ => None
          end
      | Some (OListIter None _) => Some ([], None)
      | Some (ORepeat _) => None
      | None => None
      end
  | _ => None
  end.

(** The loop takes the end of the iteration for its own end: the iterator
    returned, or raised [StopIteration]. *)
Definition ends_loop (fin : option pyexn) : bool :=
  match fin with
  | None => true
  | Some e => is_StopIteration e
  end.

(** A command that no iteration can use up: a value carried by value (a
    string, a number, a tuple), a list, a set, a dict, or an instance that
    the test on line 22 turns away. *)
Definition reusable (h : list pyobj) (command : pyval) : bool :=
  match command with
  | VRef l =>
      match h !! l with
      | Some (OList _) | Some (OSet _) | Some (ODict _) => true
      | Some (OInst c _) =>
          match cls_iter c with None => true | Some _ => false end
      | _ => false
      end
  | _ => true
  end.

(** The heap once [command] has been iterated into a new list holding
    [xs]: an iterator given as the command is left finished, and the
    generator made for an instance comes after the new list. *)
Definition heap_after (h : list pyobj) (command : pyval) (xs : list pyval)
  : list pyobj :=
  match command with
  | VRef l =>
      match h !! l with
      | Some (OGen _ _) => <[l := OGen [] None]> h ++ [OList xs]
      | Some (OIterator name _ _) =>
          <[l := OIterator name [] None]> h ++ [OList xs]
      | Some (OListIter (Some _) i) =>
          <[l := OListIter None (i + length xs)]> h ++ [OList xs]
      | Some (OInst _ _) => h ++ [OList xs; OGen [] None]
      | _ => h ++ [OList xs]
      end
  | _ => h ++ [OList xs]
  end.

(** The steps the loop over [command] takes before it is through. *)
Definition steps (h : list pyobj) (command : pyval) : nat :=
  match yields h command with
  | Some (xs, _) => length xs
  | None => 0
  end.


(** ** Invariants of the loops *)

(** What an iterator over an object that nobody consumes still has to
    yield, as read from the heap. *)
Definition it_view (h : list pyobj) (it : iterator) (rest : list pyval)
  : Prop :=
  match it with
  | ItConst r => rest = r
  | ItList l k =>
      exists items, h !! l = Some (OList items) /\ rest = drop k items
  | ItSet l k n =>
      exists items,
        h !! l = Some (OSet items) /\ n = length items /\ rest = drop k items
  | ItDict l k n =>
      exists entries,
        h !! l = Some (ODict entries) /\ n = length entries
        /\ rest = drop k (fst <$> entries)
  | ItGen _ => False
  end.

(** The iterator does not walk the list at [a]. *)
Definition it_avoids (a : loc) (it : iterator) : Prop :=
  match it with
  | ItList l _ => l <> a
  | _ => True
  end.

(** The iterators that hold what they have still to yield: generators and
    the like. *)
Definition holds_pending (mk : list pyval -> option pyexn -> pyobj) : Prop :=
  mk = OGen \/ exists name, mk = OIterator name.




(** [m] keeps [P] true, however it ends. *)
Definition preserves {W A : Type} (P : state W -> Prop) (m : M W A) : Prop :=
  forall st r st', P st -> m st = (r, st') -> P st'.

(** No call has been made, the world is as it was, and [a] still holds a
    list. *)
Definition frame {W : Type} (a : loc) (cs : list (list pyval * pyval))
    (w : W) : state W -> Prop :=
  fun st =>
    calls st = cs /\ world st = w
    /\ exists args, heap st !! a = Some (OList args).

(** ** A primitive to run the function against *)

(** Modelled from the spec: the empty-output error of the primitive, the
    class the module imports as [SubprocessOutputEmptyError]. *)
Definition SubprocessOutputEmptyError : pyexn :=
  PyExn "SubprocessOutputEmptyError"
        "get_subprocess_output expected output but had none.".

(** Modelled from the spec: the subprocess-execution primitive
    [execute(argument_list, raise_on_empty_output)], native code that is
    not part of this module. It returns the captured output, and fails with
    the empty-output error when the flag is true and nothing was captured.
    The world is reduced to what the spawned process writes. *)
Definition execute (args : list pyval) (raise_on_empty_output : pyval)
    (captured : string) : (pyval + pyexn) * string :=
  match raise_on_empty_output, captured with
  | VBool true, EmptyString => (inr SubprocessOutputEmptyError, captured)
  | _, _ => (inl (VStr captured), captured)
  end.

(** The items a value serves as a sequence, index after index from 0:
    those of a tuple or a list, and those an instance serves through its
    [__getitem__]. Strings are left aside. *)
Definition sequence_view (h : list pyobj) (command : pyval)
  : option (list pyval) :=
  match command with
  | VTuple items => Some items
  | VRef l =>
      match h !! l with
      | Some (OList items) => Some items
      | Some (OInst c _) => cls_getitem c
      | _ => None
      end
  | _ => None
  end.

(** The sequences whose type has [__iter__]: the built-in ones, tuples and
    lists. *)
Definition sequence_items (h : list pyobj) (command : pyval)
  : option (list pyval) :=
  match command with
  | VTuple items => Some items
  | VRef l =>
      match h !! l with
      | Some (OList items) => Some items
      | _ => None
      end
  | _ => None
  end.

(** The call hands [items] to the primitive, and the flag with them. *)
Definition delegated {W : Type}
    (prim : list pyval -> pyval -> W -> (pyval + pyexn) * W)
    (fuel : nat) (command log : pyval) (flag : option pyval)
    (st : state W) (items : list pyval) : Prop :=
  calls (get_subprocess_output prim fuel command log flag st).2
  = calls st ++ [(items, default (VBool true) flag)].

(** The argument list a command stands for, as the spec has it: the tokens
    of a string, and what an iterable yields when its iteration comes to
    its end. *)
Definition expected_args (h : list pyobj) (command : pyval)
  : option (list pyval) :=
  match tokens_of command with
  | Some tokens => Some tokens
  | None =>
      match yields h command with
      | Some (xs, fin) => if ends_loop fin then Some xs else None
      | None => None
      end
  end.

(** Two calls in a row on the same command, the second in the state the
    first one left, hand the same argument lists to the primitive. *)
Definition builds_same_twice {W : Type}
    (prim : list pyval -> pyval -> W -> (pyval + pyexn) * W)
    (fuel : nat) (command log : pyval) (flag : option pyval)
    (st : state W) : Prop :=
  let st1 := (get_subprocess_output prim fuel command log flag st).2 in
  let st2 := (get_subprocess_output prim fuel command log flag st1).2 in
  exists cs, calls st1 = calls st ++ cs /\ calls st2 = calls st1 ++ cs.

(** * Properties *)

(** ** Splitting *)

Example str_split_ls : str_split "ls -la /tmp" = ["ls"; "-la"; "/tmp"].
Proof. reflexivity. Qed.

Example str_split_padded : str_split "  echo   hi  " = ["echo"; "hi"].
Proof. reflexivity. Qed.

Example str_split_blank : str_split "   " = [].
Proof. reflexivity. Qed.

Lemma split_ws_nil {A} (isspace : A -> bool) (s cur : list A) :
  split_ws isspace cur s = [] <-> cur = [] /\ forallb isspace s = true.
Proof.
  revert cur. induction s as [|c s IH]; intros cur; simpl.
  - destruct cur; split; intros H; try discriminate; auto.
    destruct H; discriminate.
  - destruct (isspace c); simpl.
    + destruct cur.
      * apply IH.
      * split; intros H; try discriminate. destruct H; discriminate.
    + rewrite IH. split; intros [H1 H2]; discriminate.
Qed.

Lemma fmap_nil_iff {A B} (f : A -> B) (l : list A) :
  f <$> l = [] <-> l = [].
Proof.
  split; [apply fmap_nil_inv | intros ->; reflexivity].
Qed.

Lemma tokens_of_blank (command : pyval) (tokens : list pyval) :
  tokens_of command = Some tokens ->
  (tokens = [] <-> blank command = true).
Proof.
  destruct command; simpl; try discriminate; intros [= <-].
  - unfold str_split. rewrite !fmap_nil_iff, split_ws_nil. intuition.
  - unfold unicode_split. rewrite fmap_nil_iff, split_ws_nil. intuition.
Qed.

(** ** Loops that fill the accumulator *)

Section Loops.

Context {W : Type}.
Implicit Types (h : list pyobj) (w : W) (cs : list (list pyval * pyval)).

Lemma drop_nil_lookup {A} (l : list A) (k : nat) :
  drop k l = [] -> l !! k = None.
Proof.
  intros H. apply lookup_ge_None.
  apply (f_equal length) in H. rewrite length_drop in H. simpl in H. lia.
Qed.

Lemma drop_cons_lookup {A} (l : list A) (k : nat) (x : A) (r : list A) :
  drop k l = x :: r -> l !! k = Some x /\ drop (S k) l = r.
Proof.
  intros H.
  assert (Hx : l !! k = Some x).
  { rewrite <- (Nat.add_0_r k), <- lookup_drop, H. reflexivity. }
  split; [exact Hx|].
  rewrite (drop_S _ _ _ Hx) in H. congruence.
Qed.

Lemma py_next_view_nil h w cs it :
  it_view h it [] ->
  py_next it (State h w cs) = (Ok None, State h w cs).
Proof.
  destruct it as [r|l k|l k n|l k n|l]; simpl.
  - intros <-. reflexivity.
  - intros (items & Hl & Hd). unfold bind, deref. simpl. rewrite Hl.
    rewrite (drop_nil_lookup _ _ (eq_sym Hd)). reflexivity.
  - intros (items & Hl & -> & Hd). unfold bind, deref. simpl. rewrite Hl.
    rewrite Nat.eqb_refl. simpl.
    rewrite (drop_nil_lookup _ _ (eq_sym Hd)). reflexivity.
  - intros (es & Hl & -> & Hd). unfold bind, deref. simpl. rewrite Hl.
    rewrite Nat.eqb_refl. simpl.
    apply eq_sym, drop_nil_lookup in Hd.
    rewrite list_lookup_fmap in Hd.
    destruct (es !! k); [discriminate | reflexivity].
  - intros [].
Qed.

Lemma py_next_view_cons h w cs it x r :
  it_view h it (x :: r) ->
  exists it',
    py_next it (State h w cs) = (Ok (Some (x, it')), State h w cs)
    /\ it_view h it' r
    /\ (forall a, it_avoids a it -> it_avoids a it')
    /\ (forall a o o' r', h !! a = Some (OList o) -> it_avoids a it' ->
          it_view h it' r' -> it_view (<[a := OList o']> h) it' r').
Proof.
  destruct it as [r0|l k|l k n|l k n|l]; simpl.
  - intros <-. exists (ItConst r). simpl. auto.
  - intros (items & Hl & Hd). apply eq_sym, drop_cons_lookup in Hd as [Hx Hd].
    exists (ItList l (S k)). unfold bind, deref. simpl. rewrite Hl, Hx.
    repeat split; eauto.
    intros a o o' r' Ha Hne (items' & Hl' & ->).
    exists items'. rewrite list_lookup_insert_ne by auto.
    injection Hl' as <-. auto.
  - intros (items & Hl & -> & Hd).
    apply eq_sym, drop_cons_lookup in Hd as [Hx Hd].
    exists (ItSet l (S k) (length items)). unfold bind, deref. simpl.
    rewrite Hl, Nat.eqb_refl. simpl. rewrite Hx.
    repeat split; eauto.
    intros a o o' r' Ha _ (items' & Hl' & Hn & ->).
    exists items'. rewrite list_lookup_insert_ne by congruence.
    injection Hl' as <-. auto.
  - intros (es & Hl & -> & Hd).
    apply eq_sym, drop_cons_lookup in Hd as [Hx Hd].
    rewrite list_lookup_fmap in Hx.
    destruct (es !! k) as [[key val]|] eqn:Hk; [|discriminate].
    simpl in Hx. injection Hx as ->.
    exists (ItDict l (S k) (length es)). unfold bind, deref. simpl.
    rewrite Hl, Nat.eqb_refl. simpl. rewrite Hk.
    repeat split; eauto.
    intros a o o' r' Ha _ (es' & Hl' & Hn & ->).
    exists es'. rewrite list_lookup_insert_ne by congruence.
    injection Hl' as <-. auto.
  - intros [].
Qed.

Lemma py_append_list h w cs a acc x :
  h !! a = Some (OList acc) ->
  py_append (VRef a) x (State h w cs)
  = (Ok tt, State (<[a := OList (acc ++ [x])]> h) w cs).
Proof.
  intros Ha. unfold py_append, bind, deref. simpl. rewrite Ha. reflexivity.
Qed.

Lemma bind_Ok {A B} (m : M W A) (k : A -> M W B) st a st' :
  m st = (Ok a, st') -> bind m k st = k a st'.
Proof. unfold bind. intros ->. reflexivity. Qed.

Lemma bind_Raise {A B} (m : M W A) (k : A -> M W B) st e st' :
  m st = (Raise e, st') -> bind m k st = (Raise e, st').
Proof. unfold bind. intros ->. reflexivity. Qed.

Lemma bind_OutOfFuel {A B} (m : M W A) (k : A -> M W B) st st' :
  m st = (OutOfFuel, st') -> bind m k st = (OutOfFuel, st').
Proof. unfold bind. intros ->. reflexivity. Qed.

Lemma py_next_gen_cons mk h w cs l x pending fin :
  holds_pending mk ->
  h !! l = Some (mk (x :: pending) fin) ->
  py_next (ItGen l) (State h w cs)
  = (Ok (Some (x, ItGen l)), State (<[l := mk pending fin]> h) w cs).
Proof.
  intros [->|[name ->]] Hl; unfold py_next, bind, deref; simpl;
    rewrite Hl; reflexivity.
Qed.

Lemma py_next_gen_end mk h w cs l fin :
  holds_pending mk ->
  h !! l = Some (mk [] fin) ->
  py_next (ItGen l) (State h w cs)
  = (match fin with
     | None => Ok None
     | Some e => if is_StopIteration e then Ok None else Raise e
     end,
     State (<[l := mk [] None]> h) w cs).
Proof.
  intros [->|[name ->]] Hl; unfold py_next, bind, deref; simpl;
    rewrite Hl; simpl; destruct fin as [e|]; try reflexivity;
    simpl; destruct (is_StopIteration e); reflexivity.
Qed.

(** Iterating an object that the loop body leaves alone appends exactly
    what is left of it to the accumulator. *)
Lemma for_loop_append h w cs a rest :
  forall it acc fuel,
    it_view h it rest ->
    it_avoids a it ->
    h !! a = Some (OList acc) ->
    length rest < fuel ->
    for_loop fuel it (py_append (VRef a)) (State h w cs)
    = (Ok tt, State (<[a := OList (acc ++ rest)]> h) w cs).
Proof.
  revert h. induction rest as [|x r IH]; intros h it acc fuel Hv Hav Ha Hf.
  - destruct fuel as [|fuel]; [lia|]. cbn [for_loop].
    rewrite (bind_Ok _ _ _ _ _ (py_next_view_nil _ _ _ _ Hv)).
    rewrite app_nil_r, list_insert_id by exact Ha. reflexivity.
  - destruct fuel as [|fuel]; [simpl in Hf; lia|]. cbn [for_loop].
    destruct (py_next_view_cons h w cs it x r Hv)
      as (it' & Hn & Hv' & Hav' & Hst).
    rewrite (bind_Ok _ _ _ _ _ Hn). cbv beta iota.
    rewrite (bind_Ok _ _ _ _ _ (py_append_list _ _ _ _ _ _ Ha)).
    rewrite (IH _ it' (acc ++ [x]) fuel).
    + rewrite list_insert_insert_eq, <- app_assoc. reflexivity.
    + eapply Hst; eauto.
    + auto.
    + apply list_lookup_insert_eq. eapply lookup_lt_Some; eauto.
    + simpl in Hf. lia.
Qed.

(** Iterating a generator, or another iterator that holds what it has to
    yield, drains it: what it still had to yield goes to the accumulator,
    and the iterator is left finished. *)
Lemma for_loop_append_gen mk w cs a l fin pending :
  holds_pending mk ->
  forall h acc fuel,
    h !! l = Some (mk pending fin) ->
    h !! a = Some (OList acc) ->
    length pending < fuel ->
    for_loop fuel (ItGen l) (py_append (VRef a)) (State h w cs)
    = (match fin with
       | None => Ok tt
       | Some e => if is_StopIteration e then Ok tt else Raise e
       end,
       State (<[a := OList (acc ++ pending)]> (<[l := mk [] None]> h))
             w cs).
Proof.
  intros Hmk.
  assert (Hkind : forall p f acc, mk p f <> OList acc)
    by (destruct Hmk as [->|[name ->]]; discriminate).
  induction pending as [|x p IH]; intros h acc fuel Hl Ha Hf;
    (assert (Hne : l <> a)
       by (intros ->; rewrite Hl in Ha; injection Ha; apply Hkind));
    (destruct fuel as [|fuel]; [simpl in Hf; lia|]); cbn [for_loop].
  - rewrite app_nil_r.
    assert (Hid : <[a:=OList acc]> (<[l:=mk [] None]> h)
                  = <[l:=mk [] None]> h).
    { apply list_insert_id. rewrite list_lookup_insert_ne by auto.
      exact Ha. }
    rewrite Hid.
    pose proof (py_next_gen_end mk h w cs l fin Hmk Hl) as Hn.
    destruct fin as [e|]; [destruct (is_StopIteration e)|].
    + rewrite (bind_Ok _ _ _ _ _ Hn). reflexivity.
    + rewrite (bind_Raise _ _ _ _ _ Hn). reflexivity.
    + rewrite (bind_Ok _ _ _ _ _ Hn). reflexivity.
  - rewrite (bind_Ok _ _ _ _ _ (py_next_gen_cons mk _ _ _ _ _ _ _ Hmk Hl)).
    cbv beta iota.
    erewrite bind_Ok.
    2:{ apply (py_append_list _ _ _ _ acc).
        rewrite list_lookup_insert_ne by auto. exact Ha. }
    rewrite (IH _ (acc ++ [x]) fuel).
    + rewrite <- app_assoc. simpl. f_equal. f_equal.
      rewrite (list_insert_insert_ne _ l a) by auto.
      rewrite !list_insert_insert_eq. reflexivity.
    + rewrite list_lookup_insert_ne by auto.
      apply list_lookup_insert_eq. eapply lookup_lt_Some; eauto.
    + apply list_lookup_insert_eq. rewrite length_insert.
      eapply lookup_lt_Some; eauto.
    + simpl in Hf. lia.
Qed.

(** Iterating a list iterator takes what is left of its list, and leaves
    the iterator through, its list let go. *)
Lemma for_loop_append_listiter w cs a l lseq items rest :
  lseq <> a ->
  forall i h acc fuel,
    drop i items = rest ->
    h !! l = Some (OListIter (Some lseq) i) ->
    h !! lseq = Some (OList items) ->
    h !! a = Some (OList acc) ->
    length rest < fuel ->
    for_loop fuel (ItGen l) (py_append (VRef a)) (State h w cs)
    = (Ok tt,
       State (<[a := OList (acc ++ rest)]>
                (<[l := OListIter None (i + length rest)]> h))
             w cs).
Proof.
  intros Hseq.
  induction rest as [|x r IH]; intros i h acc fuel Hd Hl Hs Ha Hf;
    (assert (Hne : l <> a) by congruence);
    (assert (Hls : l <> lseq) by congruence);
    (destruct fuel as [|fuel]; [simpl in Hf; lia|]); cbn [for_loop].
  - rewrite app_nil_r, Nat.add_0_r.
    erewrite bind_Ok.
    2:{ unfold py_next, bind, deref. simpl. rewrite Hl. simpl.
        rewrite Hs. simpl. rewrite (drop_nil_lookup _ _ Hd). reflexivity. }
    cbv beta iota. unfold ret. f_equal. f_equal.
    symmetry. apply list_insert_id.
    rewrite list_lookup_insert_ne by auto. exact Ha.
  - apply drop_cons_lookup in Hd as [Hx Hd].
    erewrite bind_Ok.
    2:{ unfold py_next, bind, deref. simpl. rewrite Hl. simpl.
        rewrite Hs. simpl. rewrite Hx. reflexivity. }
    cbv beta iota.
    erewrite bind_Ok.
    2:{ apply (py_append_list _ _ _ _ acc).
        rewrite list_lookup_insert_ne by auto. exact Ha. }
    rewrite (IH (S i) _ (acc ++ [x]) fuel Hd).
    + rewrite <- app_assoc. simpl. f_equal. f_equal.
      rewrite (list_insert_insert_ne _ l a) by auto.
      rewrite !list_insert_insert_eq.
      replace (S (i + length r)) with (i + S (length r)) by lia.
      reflexivity.
    + rewrite list_lookup_insert_ne by auto.
      apply list_lookup_insert_eq. eapply lookup_lt_Some; eauto.
    + rewrite !list_lookup_insert_ne by auto. exact Hs.
    + apply list_lookup_insert_eq. rewrite length_insert.
      eapply lookup_lt_Some; eauto.
    + simpl in Hf. lia.
Qed.

(** Iterating [itertools.repeat(x)] has no end: every step allowed is
    taken, and appends one more [x]. *)
Lemma for_loop_append_repeat w cs a l x :
  forall fuel h acc,
    h !! l = Some (ORepeat x) ->
    h !! a = Some (OList acc) ->
    for_loop fuel (ItGen l) (py_append (VRef a)) (State h w cs)
    = (OutOfFuel, State (<[a := OList (acc ++ replicate fuel x)]> h) w cs).
Proof.
  induction fuel as [|fuel IH]; intros h acc Hl Ha; cbn [for_loop].
  - simpl. rewrite app_nil_r, list_insert_id by exact Ha. reflexivity.
  - assert (Hne : l <> a) by congruence.
    erewrite bind_Ok.
    2:{ unfold py_next, bind, deref. simpl. rewrite Hl. reflexivity. }
    cbv beta iota.
    rewrite (bind_Ok _ _ _ _ _ (py_append_list _ _ _ _ _ _ Ha)).
    rewrite (IH _ (acc ++ [x])).
    + rewrite list_insert_insert_eq, <- app_assoc. reflexivity.
    + rewrite list_lookup_insert_ne by auto. exact Hl.
    + apply list_lookup_insert_eq. eapply lookup_lt_Some; eauto.
Qed.

End Loops.

(** ** What building the argument list leaves untouched *)

Section Frame.

Context {W : Type}.
Implicit Types (P : state W -> Prop) (w : W) (st : state W).

Lemma preserves_ret {A} P (a : A) : preserves P (ret a).
Proof. intros st r st' HP [= _ <-]. exact HP. Qed.

Lemma preserves_raise {A} P e : preserves P (@raise W A e).
Proof. intros st r st' HP [= _ <-]. exact HP. Qed.

Lemma preserves_out_of_fuel {A} P : preserves P (@out_of_fuel W A).
Proof. intros st r st' HP [= _ <-]. exact HP. Qed.

Lemma preserves_bind {A B} P (m : M W A) (k : A -> M W B) :
  preserves P m -> (forall a, preserves P (k a)) -> preserves P (bind m k).
Proof.
  intros Hm Hk st r st' HP. unfold bind.
  destruct (m st) as [[a|e|] st1] eqn:E.
  - intros H. exact (Hk a st1 r st' (Hm _ _ _ HP E) H).
  - intros [= _ <-]. exact (Hm _ _ _ HP E).
  - intros [= _ <-]. exact (Hm _ _ _ HP E).
Qed.

Lemma preserves_deref P l : preserves P (deref l).
Proof.
  intros st r st' HP. unfold deref.
  destruct (heap st !! l); intros [= _ <-]; exact HP.
Qed.

Lemma preserves_type_ P v : preserves P (type_ v).
Proof.
  intros st r st' HP. unfold type_.
  destruct (type_of (heap st) v); intros [= _ <-]; exact HP.
Qed.

Lemma preserves_load_global P name : preserves P (load_global name).
Proof.
  unfold load_global. destruct (lookup_global name);
    [apply preserves_ret | apply preserves_raise].
Qed.

Lemma frame_alloc a cs w o : preserves (frame a cs w) (alloc o).
Proof.
  intros st r st' (Hc & Hw & args & Ha) [= _ <-]. simpl.
  repeat split; auto. exists args. simpl.
  rewrite lookup_app_l; [exact Ha | eapply lookup_lt_Some; eauto].
Qed.

(** A store over something that is not a list cannot hit the accumulator. *)
Lemma frame_store_other a cs w l o st r st' :
  frame a cs w st ->
  (forall items, heap st !! l <> Some (OList items)) ->
  store l o st = (r, st') ->
  frame a cs w st'.
Proof.
  intros (Hc & Hw & args & Ha) Hl [= _ <-]. simpl.
  repeat split; auto. exists args. simpl.
  rewrite list_lookup_insert_ne; [exact Ha|].
  intros ->. exact (Hl _ Ha).
Qed.

Lemma frame_store_list a cs w l items st r st' :
  frame a cs w st ->
  store l (OList items) st = (r, st') ->
  frame a cs w st'.
Proof.
  intros (Hc & Hw & args & Ha) [= _ <-]. simpl.
  repeat split; auto.
  destruct (decide (l = a)) as [->|Hne].
  - exists items. simpl.
    apply list_lookup_insert_eq. eapply lookup_lt_Some; eauto.
  - exists args. simpl. rewrite list_lookup_insert_ne by auto. exact Ha.
Qed.

Lemma frame_py_append a cs w target x :
  preserves (frame a cs w) (py_append target x).
Proof.
  intros st r st' HP. unfold py_append.
  destruct target; try (intros [= _ <-]; exact HP).
  unfold bind, deref.
  destruct (heap st !! l) as [[]|]; try (intros [= _ <-]; exact HP).
  apply frame_store_list. exact HP.
Qed.

Lemma frame_py_split a cs w v : preserves (frame a cs w) (py_split v).
Proof.
  destruct v; simpl; try apply preserves_raise; apply frame_alloc.
Qed.

Lemma frame_py_iter a cs w v : preserves (frame a cs w) (py_iter v).
Proof.
  destruct v; simpl; try apply preserves_raise; try apply preserves_ret.
  apply preserves_bind; [apply preserves_deref|].
  intros o. destruct o as [ | | | |c d| | | ]; try apply preserves_ret.
  destruct (cls_iter c) as [[items fin]|].
  - apply preserves_bind; [apply frame_alloc|].
    intros []; try apply preserves_raise; apply preserves_ret.
  - destruct (cls_getitem c); [apply preserves_ret | apply preserves_raise].
Qed.

Lemma preserves_end_of_iteration P fin :
  preserves P (end_of_iteration (W := W) fin).
Proof.
  unfold end_of_iteration. destruct fin as [e|]; [|apply preserves_ret].
  destruct (is_StopIteration e); [apply preserves_ret | apply preserves_raise].
Qed.

(** A store over something that is not a list leaves the accumulator
    alone. *)
Lemma frame_store_at a cs w (l : loc) o o' st :
  frame a cs w st ->
  heap st !! l = Some o ->
  (forall items, o <> OList items) ->
  frame a cs w (State (<[l := o']> (heap st)) (world st) (calls st)).
Proof.
  intros HP Hl Ho.
  apply (frame_store_other a cs w l o' st (Ok tt) _ HP); [|reflexivity].
  intros items H. rewrite Hl in H. injection H. apply Ho.
Qed.

Lemma frame_py_next a cs w it : preserves (frame a cs w) (py_next it).
Proof.
  intros st r st' HP.
  destruct it as [[|x rest]|l k|l k n|l k n|l]; simpl;
    try (intros [= _ <-]; exact HP); unfold bind at 1, deref at 1;
    destruct (heap st !! l) as [o|] eqn:Hl;
    try (intros [= _ <-]; exact HP).
  - destruct o; try (intros [= _ <-]; exact HP).
    destruct (items !! k); intros [= _ <-]; exact HP.
  - destruct o; try (intros [= _ <-]; exact HP).
    destruct (negb _); [intros [= _ <-]; exact HP|].
    destruct (items !! k); intros [= _ <-]; exact HP.
  - destruct o; try (intros [= _ <-]; exact HP).
    destruct (negb _); [intros [= _ <-]; exact HP|].
    destruct (entries !! k) as [[]|]; intros [= _ <-]; exact HP.
  - destruct o as [ | | |pending fin| |name pending fin|seq i|x];
      try (intros [= _ <-]; exact HP).
    + assert (HP' : forall o', frame a cs w
                (State (<[l := o']> (heap st)) (world st) (calls st)))
        by (intros o'; eapply frame_store_at; eauto; discriminate).
      destruct pending as [|x pending]; unfold bind, store; cbv beta iota.
      * apply preserves_end_of_iteration, HP'.
      * intros [= _ <-]. apply HP'.
    + assert (HP' : forall o', frame a cs w
                (State (<[l := o']> (heap st)) (world st) (calls st)))
        by (intros o'; eapply frame_store_at; eauto; discriminate).
      destruct pending as [|x pending]; unfold bind, store; cbv beta iota.
      * apply preserves_end_of_iteration, HP'.
      * intros [= _ <-]. apply HP'.
    + assert (HP' : forall o', frame a cs w
                (State (<[l := o']> (heap st)) (world st) (calls st)))
        by (intros o'; eapply frame_store_at; eauto; discriminate).
      destruct seq as [lseq|]; [|intros [= _ <-]; exact HP].
      unfold bind, deref, store.
      destruct (heap st !! lseq) as [[items| | | | | | | ]|];
        try (intros [= _ <-]; exact HP).
      destruct (items !! i); intros [= _ <-]; apply HP'.
Qed.

Lemma frame_for_loop a cs w body :
  (forall x, preserves (frame a cs w) (body x)) ->
  forall fuel it, preserves (frame a cs w) (for_loop fuel it body).
Proof.
  intros Hb. induction fuel as [|fuel IH]; intros it; simpl.
  - apply preserves_out_of_fuel.
  - apply preserves_bind; [apply frame_py_next|].
    intros [[x it']|]; [|apply preserves_ret].
    apply preserves_bind; [apply Hb | intros _; apply IH].
Qed.

Lemma frame_for_in a cs w body fuel v :
  (forall x, preserves (frame a cs w) (body x)) ->
  preserves (frame a cs w) (for_in fuel v body).
Proof.
  intros Hb. apply preserves_bind; [apply frame_py_iter|].
  intros it. apply frame_for_loop, Hb.
Qed.

(** Lines 18 to 26 call nothing outside the interpreter; when they
    complete, [cmd_args] is the list allocated on line 18. *)
Lemma normalize_frame fuel command st r st' :
  normalize fuel command st = (r, st') ->
  frame (length (heap st)) (calls st) (world st) st'
  /\ (forall v, r = Ok v -> v = VRef (length (heap st))).
Proof.
  unfold normalize. unfold bind at 1. unfold alloc at 1. cbv beta iota.
  set (a := length (heap st)).
  set (st1 := State (heap st ++ [OList []]) (world st) (calls st)).
  assert (H1 : frame a (calls st) (world st) st1).
  { repeat split. exists []. apply list_lookup_middle. reflexivity. }
  intros H. split.
  - revert H. apply preserves_bind; [| |exact H1].
    + apply preserves_bind;
        [apply preserves_type_ | intros; apply preserves_ret].
    + intros is_string.
      apply preserves_bind; [|intros; apply preserves_ret].
      destruct is_string.
      * apply preserves_bind; [apply frame_py_split|]. intros tokens.
        apply frame_for_in. intros x.
        apply preserves_bind; [apply preserves_load_global|].
        intros t. apply frame_py_append.
      * apply preserves_bind; [apply preserves_type_|]. intros t.
        destruct (hasattr t "__iter__"); [|apply preserves_raise].
        apply frame_for_in. intros x. apply frame_py_append.
  - intros v ->. revert H. unfold bind at 1.
    destruct (isinstance command TBasestring st1) as [[b|e|] st2];
      try discriminate.
    unfold bind at 1.
    match goal with |- context [?m st2] =>
      destruct (m st2) as [[[]|e|] st3] end; try discriminate.
    intros [= <- _]. reflexivity.
Qed.

End Frame.

(** ** The function, case by case *)

Section Run.

Context {W : Type}.
Variable prim : list pyval -> pyval -> W -> (pyval + pyexn) * W.

Implicit Types (h : list pyobj) (w : W) (cs : list (list pyval * pyval)).

Lemma type_of_app h h' v t :
  type_of h v = Some t -> type_of (h ++ h') v = Some t.
Proof.
  destruct v; simpl; auto.
  destruct (h !! l) eqn:Hl; [|discriminate].
  rewrite (lookup_app_l_Some _ _ _ _ Hl). auto.
Qed.

Lemma type__eval h w cs v t :
  type_of h v = Some t ->
  type_ v (State h w cs) = (Ok t, State h w cs).
Proof. unfold type_. simpl. intros ->. reflexivity. Qed.

Lemma isinstance_eval h w cs v t cls :
  type_of h v = Some t ->
  isinstance v cls (State h w cs) = (Ok (issubclass t cls), State h w cs).
Proof.
  intros H. unfold isinstance.
  rewrite (bind_Ok _ _ _ _ _ (type__eval _ w cs _ _ H)). reflexivity.
Qed.

Lemma insert_last_at {A} (l : list A) (n : nat) (x y : A) :
  length l = n -> <[n := y]> (l ++ [x]) = l ++ [y].
Proof.
  intros <-. rewrite insert_app_r_alt by lia.
  rewrite Nat.sub_diag. reflexivity.
Qed.

Lemma insert_last {A} (l : list A) (x y : A) :
  <[length l := y]> (l ++ [x]) = l ++ [y].
Proof. apply insert_last_at. reflexivity. Qed.

Lemma get_subprocess_output_normalize fuel command log flag st :
  get_subprocess_output prim fuel command log flag st
  = bind (normalize fuel command)
         (fun cmd_args =>
            subprocess_output prim cmd_args (default (VBool true) flag)) st.
Proof.
  unfold get_subprocess_output, normalize. unfold bind.
  destruct (alloc (OList []) st) as [[a|e|] st1]; try reflexivity.
  destruct (isinstance command TBasestring st1) as [[b|e|] st2];
    try reflexivity.
  match goal with |- context [?m st2] =>
    destruct (m st2) as [[[]|e|] st3] end; reflexivity.
Qed.

Lemma subprocess_output_list a flag st items :
  heap st !! a = Some (OList items) ->
  subprocess_output prim (VRef a) flag st
  = (lift_result (prim items flag (world st)).1,
     State (heap st) (prim items flag (world st)).2
           (calls st ++ [(items, flag)])).
Proof.
  intros Ha. unfold subprocess_output.
  erewrite bind_Ok by (unfold deref; rewrite Ha; reflexivity).
  cbv beta iota. destruct (prim items flag (world st)). reflexivity.
Qed.

Lemma deref_eval h w cs l o :
  h !! l = Some o -> deref l (State h w cs) = (Ok o, State h w cs).
Proof. unfold deref. simpl. intros ->. reflexivity. Qed.

Lemma py_iter_ref h w cs l o it :
  h !! l = Some o ->
  match o with
  | OList _ => it = ItList l 0
  | OSet items => it = ItSet l 0 (length items)
  | ODict entries => it = ItDict l 0 (length entries)
  | OGen _ _ | OIterator _ _ _ | OListIter _ _ | ORepeat _ => it = ItGen l
  | OInst _ _ => False
  end ->
  py_iter (VRef l) (State h w cs) = (Ok it, State h w cs).
Proof.
  intros Hl Hit. unfold py_iter.
  rewrite (bind_Ok _ _ _ _ _ (deref_eval _ w cs _ _ Hl)).
  destruct o; try contradiction; subst it; reflexivity.
Qed.

(** The name [_args] is bound nowhere the function can see. *)
Lemma load_global__args (st : state W) :
  load_global "_args" st = (Raise (NameError "_args"), st).
Proof. reflexivity. Qed.

Ltac exec := unfold bind; cbv beta iota; cbn [heap world calls].

(** A string command: the tokens are split off into a list of their own,
    and the first of them, if there is one, stops the loop on the name
    [_args]. *)
Lemma normalize_string fuel command tokens h w cs :
  tokens_of command = Some tokens ->
  0 < fuel ->
  normalize fuel command (State h w cs)
  = (match tokens with
     | [] => Ok (VRef (length h))
     | _ :: _ => Raise (NameError "_args")
     end,
     State (h ++ [OList []; OList tokens]) w cs).
Proof.
  intros Htok Hfuel.
  assert (Ht : exists t, type_of (h ++ [OList []]) command = Some t
                         /\ issubclass t TBasestring = true).
  { destruct command; try discriminate; eexists; split; reflexivity. }
  destruct Ht as (t & Ht & Hsub).
  assert (Hsplit : py_split command (State (h ++ [OList []]) w cs)
                   = (Ok (VRef (S (length h))),
                      State (h ++ [OList []; OList tokens]) w cs)).
  { destruct command; try discriminate; injection Htok as <-;
      unfold py_split, alloc; simpl; rewrite length_app, <- app_assoc;
      simpl; rewrite Nat.add_1_r; reflexivity. }
  assert (Hl : (h ++ [OList []; OList tokens]) !! S (length h)
               = Some (OList tokens)).
  { change (h ++ [OList []; OList tokens])
      with (h ++ [OList []] ++ [OList tokens]).
    rewrite app_assoc. apply list_lookup_middle.
    rewrite length_app. simpl. lia. }
  destruct fuel as [|fuel]; [lia|].
  unfold normalize, for_in. exec. unfold alloc at 1. exec.
  rewrite (isinstance_eval _ w cs _ _ _ Ht), Hsub. exec.
  rewrite Hsplit. exec.
  rewrite (py_iter_ref _ w cs _ _ (ItList (S (length h)) 0) Hl eq_refl).
  cbn [for_loop]. exec.
  destruct tokens as [|x tokens].
  - rewrite py_next_view_nil; [reflexivity|].
    exists []. split; [exact Hl | reflexivity].
  - destruct (py_next_view_cons (h ++ [OList []; OList (x :: tokens)]) w cs
                (ItList (S (length h)) 0) x tokens) as (it' & -> & _).
    { exists (x :: tokens). split; [exact Hl | reflexivity]. }
    rewrite load_global__args. reflexivity.
Qed.

(** Up to the loop, for a command that is not a string and whose type has
    [__iter__]. *)
Lemma normalize_iter_branch fuel command t h w cs :
  type_of h command = Some t ->
  issubclass t TBasestring = false ->
  hasattr t "__iter__" = true ->
  normalize fuel command (State h w cs)
  = bind (for_in fuel command (py_append (VRef (length h))))
         (fun _ => ret (VRef (length h)))
         (State (h ++ [OList []]) w cs).
Proof.
  intros Ht Hsub Hattr. apply (type_of_app _ [OList []]) in Ht.
  unfold normalize. exec. unfold alloc at 1. exec.
  rewrite (isinstance_eval _ w cs _ _ _ Ht), Hsub. exec.
  rewrite (type__eval _ w cs _ _ Ht), Hattr. reflexivity.
Qed.

(** A command that is not a string and whose type has no [__iter__]. *)
Lemma normalize_rejected fuel command t h w cs :
  type_of h command = Some t ->
  issubclass t TBasestring = false ->
  hasattr t "__iter__" = false ->
  normalize fuel command (State h w cs)
  = (Raise (TypeError "command must be a sequence or string"),
     State (h ++ [OList []]) w cs).
Proof.
  intros Ht Hsub Hattr. apply (type_of_app _ [OList []]) in Ht.
  unfold normalize. exec. unfold alloc at 1. exec.
  rewrite (isinstance_eval _ w cs _ _ _ Ht), Hsub. exec.
  rewrite (type__eval _ w cs _ _ Ht), Hattr. reflexivity.
Qed.

Lemma insert_app_at {A} (l : list A) (k : nat) (x : A) (l' : list A) :
  <[length l + k := x]> (l ++ l') = l ++ <[k := x]> l'.
Proof. apply insert_app_r. Qed.

(** A command that is not a string and whose type has [__iter__]: what it
    yields is appended, in order and as it comes, to the new list. *)
Lemma normalize_iterable fuel command t h w cs xs fin :
  type_of h command = Some t ->
  issubclass t TBasestring = false ->
  hasattr t "__iter__" = true ->
  yields h command = Some (xs, fin) ->
  length xs < fuel ->
  normalize fuel command (State h w cs)
  = (match fin with
     | None => Ok (VRef (length h))
     | Some e =>
         if is_StopIteration e then Ok (VRef (length h)) else Raise e
     end,
     State (heap_after h command xs) w cs).
Proof.
  intros Ht Hsub Hattr Hy Hfuel.
  rewrite (normalize_iter_branch _ _ _ _ _ _ Ht Hsub Hattr).
  assert (Ha : (h ++ [OList []]) !! length h = Some (OList []))
    by (apply list_lookup_middle; reflexivity).
  unfold for_in. exec.
  destruct command as [ | | | | |items| |l]; try discriminate.
  - injection Hy as <- <-. unfold py_iter, ret at 1.
    rewrite (for_loop_append _ _ _ _ items (ItConst items) [] fuel);
      try solve [reflexivity | exact I | assumption].
    simpl. rewrite insert_last. reflexivity.
  - simpl in Hy, Ht. unfold heap_after.
    destruct (h !! l) as [o|] eqn:Hl; [|discriminate].
    assert (Hlt : l < length h) by (eapply lookup_lt_Some; eauto).
    assert (Hl1 : (h ++ [OList []]) !! l = Some o)
      by (apply lookup_app_l_Some; exact Hl).
    destruct o as [items|items|entries|pending fin'|c d
                  |name pending fin'|seq i|x].
    + injection Hy as <- <-.
      rewrite (py_iter_ref _ w cs _ _ (ItList l 0) Hl1 eq_refl).
      rewrite (for_loop_append _ _ _ _ items (ItList l 0) [] fuel); auto.
      * simpl. rewrite insert_last. reflexivity.
      * exists items. auto.
      * simpl. lia.
    + injection Hy as <- <-.
      rewrite (py_iter_ref _ w cs _ _ (ItSet l 0 (length items)) Hl1 eq_refl).
      rewrite (for_loop_append _ _ _ _ items (ItSet l 0 (length items)) []
                 fuel); auto.
      * simpl. rewrite insert_last. reflexivity.
      * exists items. auto.
      * exact I.
    + injection Hy as <- <-.
      rewrite (py_iter_ref _ w cs _ _ (ItDict l 0 (length entries)) Hl1
                 eq_refl).
      rewrite (for_loop_append _ _ _ _ (fst <$> entries)
                 (ItDict l 0 (length entries)) [] fuel); auto.
      * simpl. rewrite insert_last. reflexivity.
      * exists entries. auto.
      * exact I.
    + injection Hy as -> ->.
      rewrite (py_iter_ref _ w cs _ _ (ItGen l) Hl1 eq_refl).
      rewrite (for_loop_append_gen OGen _ _ _ _ fin xs (or_introl eq_refl)
                 _ [] fuel Hl1 Ha Hfuel).
      simpl app. rewrite insert_app_l by exact Hlt.
      rewrite insert_last_at by apply length_insert.
      destruct fin as [e|]; [destruct (is_StopIteration e)|]; reflexivity.
    + unfold py_iter.
      rewrite (bind_Ok _ _ _ _ _ (deref_eval _ w cs _ _ Hl1)).
      rewrite Hy. exec. unfold alloc at 1. exec.
      rewrite length_app, <- app_assoc. simpl length. simpl app.
      unfold ret at 1.
      rewrite (for_loop_append_gen OGen _ _ _ (length h + 1) fin xs
                 (or_introl eq_refl) _ [] fuel).
      * change ([] ++ xs) with xs. rewrite (insert_app_at h 1).
        rewrite insert_app_r_alt by lia. rewrite Nat.sub_diag.
        destruct fin as [e|]; [destruct (is_StopIteration e)|]; reflexivity.
      * rewrite lookup_app_r by lia.
        replace (length h + 1 - length h) with 1 by lia. reflexivity.
      * rewrite lookup_app_r by lia. rewrite Nat.sub_diag. reflexivity.
      * exact Hfuel.
    + injection Hy as -> ->.
      rewrite (py_iter_ref _ w cs _ _ (ItGen l) Hl1 eq_refl).
      rewrite (for_loop_append_gen (OIterator name) _ _ _ _ fin xs
                 (or_intror (ex_intro _ name eq_refl))
                 _ [] fuel Hl1 Ha Hfuel).
      simpl app. rewrite insert_app_l by exact Hlt.
      rewrite insert_last_at by apply length_insert.
      destruct fin as [e|]; [destruct (is_StopIteration e)|]; reflexivity.
    + rewrite (py_iter_ref _ w cs _ _ (ItGen l) Hl1 eq_refl).
      destruct seq as [lseq|].
      * destruct (h !! lseq) as [[items| | | | | | | ]|] eqn:Hs;
          try discriminate.
        injection Hy as <- <-.
        assert (Hslt : lseq < length h) by (eapply lookup_lt_Some; eauto).
        rewrite (for_loop_append_listiter _ _ (length h) l lseq items
                   (drop i items) ltac:(lia) i _ [] fuel eq_refl Hl1
                   (lookup_app_l_Some _ _ _ _ Hs) Ha Hfuel).
        simpl app. rewrite insert_app_l by exact Hlt.
        rewrite insert_last_at by apply length_insert. reflexivity.
      * injection Hy as <- <-.
        destruct fuel as [|fuel]; [simpl in Hfuel; lia|]. cbn [for_loop].
        erewrite bind_Ok.
        2:{ unfold py_next, bind, deref. simpl. rewrite Hl1. reflexivity. }
        reflexivity.
    + discriminate.
Qed.

(** A command that no iteration can use up is read, never written: in
    any heap that extends [h], building the argument list ends the same way
    and allocates the same objects [new], the argument list first. *)
Lemma normalize_stable fuel command h :
  reusable h command = true ->
  steps h command < fuel ->
  exists new (v : option pyexn),
    (forall h' w cs,
       normalize fuel command (State (h ++ h') w cs)
       = (match v with
          | None => Ok (VRef (length (h ++ h')))
          | Some e => Raise e
          end,
          State ((h ++ h') ++ new) w cs))
    /\ (v = None -> exists args rest, new = OList args :: rest).
Proof.
  intros Hre Hfuel.
  destruct (tokens_of command) as [tokens|] eqn:Htok.
  { exists [OList []; OList tokens],
      (match tokens with [] => None | _ => Some (NameError "_args") end).
    split; [|eauto].
    intros h' w cs. rewrite (normalize_string fuel _ _ _ w cs Htok) by lia.
    destruct tokens; reflexivity. }
  assert (Hcase :
    (exists t, type_of h command = Some t
               /\ issubclass t TBasestring = false
               /\ hasattr t "__iter__" = false)
    \/ (exists t xs,
          type_of h command = Some t
          /\ issubclass t TBasestring = false
          /\ hasattr t "__iter__" = true
          /\ steps h command = length xs
          /\ forall h', yields (h ++ h') command = Some (xs, None)
                        /\ heap_after (h ++ h') command xs
                           = (h ++ h') ++ [OList xs])).
  { unfold steps.
    destruct command as [ | | | | |items| |l]; try discriminate Htok;
      simpl in Hre |- *.
    1-3, 5: left; eexists; repeat split; reflexivity.
    - right. exists TTuple, items. repeat split; reflexivity.
    - destruct (h !! l) as [o|] eqn:Hl; [|discriminate].
      destruct o as [items|items|entries|pending fin|c d| | | ];
        try discriminate.
      + right. exists TList, items. repeat split; try reflexivity;
          rewrite (lookup_app_l_Some _ _ _ _ Hl); reflexivity.
      + right. exists TSet, items. repeat split; try reflexivity;
          rewrite (lookup_app_l_Some _ _ _ _ Hl); reflexivity.
      + right. exists TDict, (fst <$> entries).
        repeat split; try reflexivity;
          rewrite (lookup_app_l_Some _ _ _ _ Hl); reflexivity.
      + left. exists (TClass c). repeat split; auto.
        unfold hasattr. simpl.
        destruct (cls_iter c); [discriminate|].
        destruct (cls_getitem c); reflexivity. }
  destruct Hcase as [(t & Ht & Hsub & Hattr)
                    |(t & xs & Ht & Hsub & Hattr & Hsteps & Hy)].
  - exists [OList []],
      (Some (TypeError "command must be a sequence or string")).
    split; [|discriminate].
    intros h' w cs. eapply normalize_rejected; eauto using type_of_app.
  - exists [OList xs], None. split; [|eauto].
    intros h' w cs. destruct (Hy h') as [Hy1 Hy2].
    rewrite <- Hy2.
    apply (normalize_iterable fuel command t _ w cs xs None);
      auto using type_of_app.
    lia.
Qed.

(** The list built is the object made on line 18. *)
Lemma heap_after_accumulator h command xs :
  heap_after h command xs !! length h = Some (OList xs).
Proof.
  unfold heap_after.
  destruct command; try (apply list_lookup_middle; reflexivity).
  destruct (h !! l) as [[ | | | | | |[]| ]|];
    try (apply list_lookup_middle; reflexivity);
    apply list_lookup_middle; symmetry; apply length_insert.
Qed.

(** What yields is not a string, and its type has [__iter__]. *)
Lemma yields_typed h command xs fin :
  yields h command = Some (xs, fin) ->
  exists t,
    type_of h command = Some t
    /\ issubclass t TBasestring = false
    /\ hasattr t "__iter__" = true.
Proof.
  intros Hy. destruct command; try discriminate; simpl in Hy |- *.
  - exists TTuple. auto.
  - destruct (h !! l) as [[ | | | |c d| | | ]|]; try discriminate;
      simpl; eexists; repeat split; try reflexivity.
    unfold hasattr. simpl. rewrite Hy. reflexivity.
Qed.

Lemma run_delegates fuel command log flag st a st1 args :
  normalize fuel command st = (Ok (VRef a), st1) ->
  heap st1 !! a = Some (OList args) ->
  get_subprocess_output prim fuel command log flag st
  = (lift_result (prim args (default (VBool true) flag) (world st1)).1,
     State (heap st1)
           (prim args (default (VBool true) flag) (world st1)).2
           (calls st1 ++ [(args, default (VBool true) flag)])).
Proof.
  intros Hn Ha. rewrite get_subprocess_output_normalize.
  rewrite (bind_Ok _ _ _ _ _ Hn).
  apply subprocess_output_list. exact Ha.
Qed.

Lemma run_raises fuel command log flag st e st1 :
  normalize fuel command st = (Raise e, st1) ->
  get_subprocess_output prim fuel command log flag st = (Raise e, st1).
Proof.
  intros Hn. rewrite get_subprocess_output_normalize.
  apply (bind_Raise _ _ _ _ _ Hn).
Qed.

Lemma run_rejected fuel command log flag st t :
  type_of (heap st) command = Some t ->
  issubclass t TBasestring = false ->
  hasattr t "__iter__" = false ->
  get_subprocess_output prim fuel command log flag st
  = (Raise (TypeError "command must be a sequence or string"),
     State (heap st ++ [OList []]) (world st) (calls st)).
Proof.
  intros Ht Hsub Hattr. destruct st as [h w cs]. simpl in *.
  apply run_raises. eapply normalize_rejected; eauto.
Qed.

End Run.

(** ** The claims *)

Section Claims.

Context {W : Type}.
Variable prim : list pyval -> pyval -> W -> (pyval + pyexn) * W.

Local Abbreviation run := (get_subprocess_output prim).

(** C1 (as the code has it). A string command with at least one token never
    reaches the primitive: the first pass through the loop body reads the
    unbound name [_args], and the call ends with NameError, the tokens split
    off but none of them collected. *)
Theorem string_command_with_tokens_raises_NameError
    fuel command log flag (st : state W) tokens :
  tokens_of command = Some tokens ->
  tokens <> [] ->
  0 < fuel ->
  run fuel command log flag st
  = (Raise (NameError "_args"),
     State (heap st ++ [OList []; OList tokens]) (world st) (calls st)).
Proof.
  intros Htok Hne Hfuel. destruct st as [h w cs]. simpl.
  apply run_raises.
  rewrite (normalize_string _ _ _ _ _ _ Htok Hfuel).
  destruct tokens; [contradiction | reflexivity].
Qed.

(** C2 (as amended). A tuple or a list given as the command is iterated in
    order and handed to the primitive element for element: one call, with
    exactly the items of the sequence, none of them changed or checked. *)
Theorem sequence_command_delegated_unchanged
    fuel command log flag (st : state W) items :
  sequence_items (heap st) command = Some items ->
  length items < fuel ->
  let flag' := default (VBool true) flag in
  run fuel command log flag st
  = (lift_result (prim items flag' (world st)).1,
     State (heap st ++ [OList items])
           (prim items flag' (world st)).2
           (calls st ++ [(items, flag')])).
Proof.
  intros Hseq Hfuel flag'. destruct st as [h w cs]. simpl in *.
  assert (H : exists t,
             type_of h command = Some t
             /\ issubclass t TBasestring = false
             /\ hasattr t "__iter__" = true
             /\ yields h command = Some (items, None)
             /\ heap_after h command items = h ++ [OList items]).
  { destruct command; try discriminate; simpl in *.
    - injection Hseq as <-. exists TTuple. auto.
    - destruct (h !! l) as [[]|]; try discriminate.
      injection Hseq as <-. exists TList. auto. }
  destruct H as (t & Ht & Hsub & Hattr & Hy & Hh).
  pose proof (normalize_iterable fuel _ _ _ w cs _ _ Ht Hsub Hattr Hy Hfuel)
    as Hn.
  rewrite Hh in Hn.
  rewrite (run_delegates prim fuel command log flag _ _ _ items Hn);
    [reflexivity|].
  simpl. apply list_lookup_middle. reflexivity.
Qed.

(** C3. A command that is not a string and cannot be iterated at all (the
    integer 5, say) makes the call end with
    TypeError("command must be a sequence or string"); the primitive has not
    been called by then, and the world is as it was. *)
Theorem non_iterable_command_raises_TypeError
    fuel command log flag (st : state W) t :
  type_of (heap st) command = Some t ->
  issubclass t TBasestring = false ->
  iterable t = false ->
  run fuel command log flag st
  = (Raise (TypeError "command must be a sequence or string"),
     State (heap st ++ [OList []]) (world st) (calls st))
  /\ calls (run fuel command log flag st).2 = calls st.
Proof.
  intros Ht Hsub Hit. apply orb_false_iff in Hit as [Hattr _].
  rewrite (run_rejected prim fuel command log flag st t Ht Hsub Hattr).
  split; reflexivity.
Qed.

(** C4. A string command that is empty or all whitespace gives an empty
    argument list, and the primitive is called with it: nothing is raised
    before the call. *)
Theorem blank_string_delegates_empty_list
    fuel command log flag (st : state W) :
  blank command = true ->
  0 < fuel ->
  let flag' := default (VBool true) flag in
  run fuel command log flag st
  = (lift_result (prim [] flag' (world st)).1,
     State (heap st ++ [OList []; OList []])
           (prim [] flag' (world st)).2
           (calls st ++ [([], flag')])).
Proof.
  intros Hblank Hfuel flag'. destruct st as [h w cs]. simpl.
  assert (Htok : tokens_of command = Some []).
  { destruct (tokens_of command) as [tokens|] eqn:E.
    - apply (tokens_of_blank _ _ E) in Hblank. congruence.
    - destruct command; discriminate. }
  pose proof (normalize_string fuel _ _ h w cs Htok Hfuel) as Hn.
  rewrite (run_delegates prim fuel command log flag _ _ _ [] Hn);
    [reflexivity|].
  simpl. apply list_lookup_middle. reflexivity.
Qed.

(** C5 (as the code has it). On a command the spec accepts, with [args]
    the argument list it stands for: when the command is a string with a
    token, the primitive is not called at all and the call ends with
    NameError; on every other accepted command the primitive is called
    exactly once, with [args] and with the flag as given, [True] when it
    was left out, and the call returns what the primitive returns and
    raises what it raises. *)
Theorem accepted_command_call_count
    fuel command log flag (st : state W) args :
  expected_args (heap st) command = Some args ->
  length args < fuel ->
  let flag' := default (VBool true) flag in
  let r := run fuel command log flag st in
  match tokens_of command with
  | Some (_ :: _) =>
      r.1 = Raise (NameError "_args")
      /\ calls r.2 = calls st /\ world r.2 = world st
  | _ =>
      calls r.2 = calls st ++ [(args, flag')]
      /\ world r.2 = (prim args flag' (world st)).2
      /\ r.1 = match (prim args flag' (world st)).1 with
               | inl v => Ok v
               | inr e => Raise e
               end
  end.
Proof.
  intros Hexp Hfuel flag' r. subst r. destruct st as [h w cs].
  unfold expected_args in Hexp. simpl in Hexp |- *.
  destruct (tokens_of command) as [tokens|] eqn:Htok.
  - injection Hexp as ->.
    assert (Hpos : 0 < fuel) by lia.
    pose proof (normalize_string fuel _ _ h w cs Htok Hpos) as Hn.
    destruct args as [|x args].
    + rewrite (run_delegates prim fuel command log flag _ _ _ [] Hn)
        by (apply list_lookup_middle; reflexivity).
      simpl. fold flag'. destruct (prim [] flag' w) as [[v|e] w'].
      all: repeat split; reflexivity.
    + rewrite (run_raises prim fuel command log flag _ _ _ Hn).
      repeat split; reflexivity.
  - destruct (yields h command) as [[xs fin]|] eqn:Hy; [|discriminate].
    destruct (ends_loop fin) eqn:Hend; [|discriminate].
    injection Hexp as ->.
    destruct (yields_typed _ _ _ _ Hy) as (t & Ht & Hsub & Hattr).
    pose proof (normalize_iterable fuel _ _ _ w cs _ _ Ht Hsub Hattr Hy Hfuel)
      as Hn.
    assert (Hok : normalize fuel command (State h w cs)
                  = (Ok (VRef (length h)),
                     State (heap_after h command args) w cs)).
    { rewrite Hn. destruct fin as [e|]; [|reflexivity].
      simpl in Hend. rewrite Hend. reflexivity. }
    rewrite (run_delegates prim fuel command log flag _ _ _ args Hok)
      by apply heap_after_accumulator.
    simpl. fold flag'. destruct (prim args flag' w) as [[v|e] w'].
    all: repeat split; reflexivity.
Qed.

(** C6. Whenever the argument list gets built, an exception raised by the
    primitive, the empty-output error among them, is the exception the call
    ends with, after that one invocation; and a value returned by the
    primitive, empty output included, is the value returned. *)
Theorem primitive_outcome_propagates
    fuel command log flag (st st1 : state W) cmd_args args :
  normalize fuel command st = (Ok cmd_args, st1) ->
  heap st1 !! length (heap st) = Some (OList args) ->
  let flag' := default (VBool true) flag in
  let r := run fuel command log flag st in
  calls r.2 = calls st ++ [(args, flag')]
  /\ (forall e, (prim args flag' (world st)).1 = inr e -> r.1 = Raise e)
  /\ (forall v, (prim args flag' (world st)).1 = inl v -> r.1 = Ok v).
Proof.
  intros Hn Ha flag' r.
  destruct (normalize_frame _ _ _ _ _ Hn) as [(Hc & Hw & _) Hv].
  specialize (Hv _ eq_refl). subst cmd_args.
  subst r. rewrite (run_delegates prim fuel command log flag _ _ _ args Hn Ha).
  fold flag'. rewrite Hc, Hw. simpl.
  repeat split; intros x ->; reflexivity.
Qed.

(** C7. The [log] argument is never looked at: two calls that differ in it
    alone give the same result and leave the same state, calls to the
    primitive included. *)
Theorem log_is_ignored fuel command log1 log2 flag (st : state W) :
  run fuel command log1 flag st = run fuel command log2 flag st.
Proof. reflexivity. Qed.

(** C9. The test is on the type: a command that is not a string and whose
    type has no [__iter__] ends the call with the TypeError and without a
    call to the primitive, be it iterable through [__getitem__] or carry an
    [__iter__] of its own in its instance dictionary. *)
Theorem type_without_iter_is_rejected
    fuel command log flag (st : state W) t :
  type_of (heap st) command = Some t ->
  issubclass t TBasestring = false ->
  hasattr t "__iter__" = false ->
  run fuel command log flag st
  = (Raise (TypeError "command must be a sequence or string"),
     State (heap st ++ [OList []]) (world st) (calls st)).
Proof. apply run_rejected. Qed.

(** C10. Any command that is not a string and whose type has [__iter__]
    goes through: whatever its iteration yields, in the order it yields
    it and with no look at what the elements are, is the argument list of
    the one call to the primitive. *)
Theorem iterable_command_accepted
    fuel command log flag (st : state W) t xs :
  type_of (heap st) command = Some t ->
  issubclass t TBasestring = false ->
  hasattr t "__iter__" = true ->
  yields (heap st) command = Some (xs, None) ->
  length xs < fuel ->
  let flag' := default (VBool true) flag in
  run fuel command log flag st
  = (lift_result (prim xs flag' (world st)).1,
     State (heap_after (heap st) command xs)
           (prim xs flag' (world st)).2
           (calls st ++ [(xs, flag')])).
Proof.
  intros Ht Hsub Hattr Hy Hfuel flag'. destruct st as [h w cs]. simpl in *.
  pose proof (normalize_iterable fuel _ _ _ w cs _ _ Ht Hsub Hattr Hy Hfuel)
    as Hn.
  rewrite (run_delegates prim fuel command log flag _ _ _ xs Hn);
    [reflexivity|].
  simpl. clear Hn. unfold heap_after.
  destruct command; try (apply list_lookup_middle; reflexivity).
  destruct (h !! l) as [[ | | | | | |[]| ]|];
    try (apply list_lookup_middle; reflexivity);
    apply list_lookup_middle; symmetry; apply length_insert.
Qed.

(** C8 (as amended). For a command that iteration cannot use up (a string,
    a tuple, a list, a set, a dict, or a value that is turned away), two
    calls in a row build the same argument lists: each call leaves every
    object that was there untouched and allocates the same new ones, the
    accumulator among them, and whatever is handed to the primitive is
    handed to it both times. *)
Theorem rerun_builds_same_list fuel command log flag (st : state W) :
  reusable (heap st) command = true ->
  steps (heap st) command < fuel ->
  let st1 := (run fuel command log flag st).2 in
  let st2 := (run fuel command log flag st1).2 in
  builds_same_twice prim fuel command log flag st
  /\ exists new, heap st1 = heap st ++ new /\ heap st2 = heap st1 ++ new.
Proof.
  intros Hre Hfuel. unfold builds_same_twice.
  destruct st as [h w cs]. simpl in Hre, Hfuel |- *.
  destruct (@normalize_stable W fuel _ _ Hre Hfuel)
    as (new & v & Hn & Hnew).
  pose proof (Hn [] w cs) as H1. rewrite !app_nil_r in H1.
  destruct v as [e|].
  - rewrite (run_raises prim _ _ log flag _ _ _ H1). simpl.
    pose proof (Hn new w cs) as H2.
    rewrite (run_raises prim _ _ log flag _ _ _ H2). simpl.
    split; [exists []; rewrite !app_nil_r; auto | exists new; auto].
  - destruct (Hnew eq_refl) as (args & rest & ->).
    rewrite (run_delegates prim _ _ log flag _ _ _ args H1)
      by (apply list_lookup_middle; reflexivity).
    simpl.
    set (flag' := default (VBool true) flag).
    set (w1 := (prim args flag' w).2).
    pose proof (Hn (OList args :: rest) w1 (cs ++ [(args, flag')])) as H2.
    rewrite (run_delegates prim _ _ log flag _ _ _ args H2)
      by (apply list_lookup_middle; reflexivity).
    simpl.
    split; [exists [(args, flag')]; auto | exists (OList args :: rest); auto].
Qed.

End Claims.

(** ** The claims on concrete calls *)

Lemma string_command_with_tokens_raises_NameError_witness :
  get_subprocess_output execute 1 (VStr "ls -la /tmp") VNone None
    (State [] "out" [])
  = (Raise (NameError "_args"),
     State [OList []; OList [VStr "ls"; VStr "-la"; VStr "/tmp"]] "out" []).
Proof.
  apply (string_command_with_tokens_raises_NameError execute 1
           (VStr "ls -la /tmp") VNone None (State [] "out" [])
           [VStr "ls"; VStr "-la"; VStr "/tmp"]);
    [reflexivity | discriminate | lia].
Defined.

(** C2 (as stated). A sequence that serves its items through
    [__getitem__] alone is a sequence all the same, and is not delegated:
    the call hands nothing to the primitive. *)
Lemma getitem_sequence_not_delegated :
  let cls := PyClass "Argv" None (Some [VStr "ls"; VStr "-la"]) in
  let st := State [OInst cls []] "out" [] in
  sequence_view (heap st) (VRef 0) = Some [VStr "ls"; VStr "-la"]
  /\ ~ delegated execute 3 (VRef 0) VNone None st [VStr "ls"; VStr "-la"].
Proof.
  intros cls st. split; [reflexivity|].
  unfold delegated. intros H. vm_compute in H. discriminate H.
Qed.

Lemma sequence_command_delegated_unchanged_witness :
  get_subprocess_output execute 3 (VRef 0) VNone None
    (State [OList [VStr "echo"; VStr "hi"]] "hi" [])
  = (Ok (VStr "hi"),
     State [OList [VStr "echo"; VStr "hi"]; OList [VStr "echo"; VStr "hi"]]
           "hi" [([VStr "echo"; VStr "hi"], VBool true)]).
Proof.
  apply (sequence_command_delegated_unchanged execute 3 (VRef 0) VNone None
           (State [OList [VStr "echo"; VStr "hi"]] "hi" [])
           [VStr "echo"; VStr "hi"]);
    [reflexivity | simpl; lia].
Defined.

Lemma non_iterable_command_raises_TypeError_witness :
  get_subprocess_output execute 0 (VInt 5) VNone None (State [] "out" [])
  = (Raise (TypeError "command must be a sequence or string"),
     State [OList []] "out" [])
  /\ calls (get_subprocess_output execute 0 (VInt 5) VNone None
              (State [] "out" [])).2 = [].
Proof.
  apply (non_iterable_command_raises_TypeError execute 0 (VInt 5) VNone None
           (State [] "out" []) TInt);
    reflexivity.
Defined.

Lemma blank_string_delegates_empty_list_witness :
  get_subprocess_output execute 1 (VStr "   ") VNone (Some (VBool false))
    (State [] "" [])
  = (Ok (VStr ""), State [OList []; OList []] "" [([], VBool false)]).
Proof.
  apply (blank_string_delegates_empty_list execute 1 (VStr "   ") VNone
           (Some (VBool false)) (State [] "" []));
    [reflexivity | lia].
Defined.

(** The string of the spec's example is accepted and never delegated; the
    same tokens given as a tuple are delegated once. *)
Lemma accepted_command_call_count_witness :
  (let r := get_subprocess_output execute 4 (VStr "ls -la /tmp") VNone None
              (State [] "out" []) in
   r.1 = Raise (NameError "_args") /\ calls r.2 = [] /\ world r.2 = "out")
  /\ (let r := get_subprocess_output execute 4
                 (VTuple [VStr "ls"; VStr "-la"; VStr "/tmp"]) VNone None
                 (State [] "out" []) in
      calls r.2 = [([VStr "ls"; VStr "-la"; VStr "/tmp"], VBool true)]
      /\ world r.2 = "out" /\ r.1 = Ok (VStr "out")).
Proof.
  split.
  - apply (accepted_command_call_count execute 4 (VStr "ls -la /tmp") VNone
             None (State [] "out" [])
             [VStr "ls"; VStr "-la"; VStr "/tmp"]);
      [reflexivity | simpl; lia].
  - apply (accepted_command_call_count execute 4
             (VTuple [VStr "ls"; VStr "-la"; VStr "/tmp"]) VNone None
             (State [] "out" []) [VStr "ls"; VStr "-la"; VStr "/tmp"]);
      [reflexivity | simpl; lia].
Defined.

(** A process that prints nothing: the empty-output error comes through
    when the flag is left at its default, the empty output when the flag
    is [False]. *)
Lemma primitive_outcome_propagates_witness :
  (get_subprocess_output execute 2 (VTuple [VStr "true"]) VNone None
     (State [] "" [])).1 = Raise SubprocessOutputEmptyError
  /\ (get_subprocess_output execute 2 (VTuple [VStr "true"]) VNone
        (Some (VBool false)) (State [] "" [])).1 = Ok (VStr "").
Proof.
  split.
  - apply (proj1 (proj2 (primitive_outcome_propagates execute 2
             (VTuple [VStr "true"]) VNone None (State [] "" [])
             (State [OList [VStr "true"]] "" []) (VRef 0) [VStr "true"]
             eq_refl eq_refl))).
    reflexivity.
  - apply (proj2 (proj2 (primitive_outcome_propagates execute 2
             (VTuple [VStr "true"]) VNone (Some (VBool false))
             (State [] "" []) (State [OList [VStr "true"]] "" []) (VRef 0)
             [VStr "true"] eq_refl eq_refl))).
    reflexivity.
Defined.

(** C8 (as stated). A generator is used up by the first call: the second
    call on it hands the primitive an empty list where the first handed it
    ["ls"]. *)
Lemma generator_command_not_built_twice :
  ~ builds_same_twice execute 2 (VRef 0) VNone None
      (State [OGen [VStr "ls"] None] "out" []).
Proof.
  unfold builds_same_twice. intros (cs & H1 & H2).
  vm_compute in H1. subst cs. vm_compute in H2. discriminate H2.
Qed.

(** A list iterator and an instance that iterates over itself are used up
    by the first call just as a generator is. *)
Lemma list_iterator_not_built_twice :
  ~ builds_same_twice execute 3 (VRef 1) VNone None
      (State [OList [VStr "ls"]; OListIter (Some 0) 0] "out" []).
Proof.
  unfold builds_same_twice. intros (cs & H1 & H2).
  vm_compute in H1. subst cs. vm_compute in H2. discriminate H2.
Qed.

Lemma self_iterating_instance_not_built_twice :
  ~ builds_same_twice execute 3 (VRef 0) VNone None
      (State [OIterator "Walker" [VStr "ls"] None] "out" []).
Proof.
  unfold builds_same_twice. intros (cs & H1 & H2).
  vm_compute in H1. subst cs. vm_compute in H2. discriminate H2.
Qed.

Lemma rerun_builds_same_list_witness :
  builds_same_twice execute 3 (VRef 0) VNone None
    (State [OList [VStr "echo"; VStr "hi"]] "hi" [])
  /\ exists new,
       [OList [VStr "echo"; VStr "hi"]; OList [VStr "echo"; VStr "hi"]]
       = [OList [VStr "echo"; VStr "hi"]] ++ new
       /\ [OList [VStr "echo"; VStr "hi"]; OList [VStr "echo"; VStr "hi"];
           OList [VStr "echo"; VStr "hi"]]
          = [OList [VStr "echo"; VStr "hi"]; OList [VStr "echo"; VStr "hi"]]
            ++ new.
Proof.
  apply (rerun_builds_same_list execute 3 (VRef 0) VNone None
           (State [OList [VStr "echo"; VStr "hi"]] "hi" []));
    [reflexivity | vm_compute; lia].
Defined.

(** An object that [for] could walk through [__getitem__], and that even
    carries an [__iter__] of its own, is turned away all the same. *)
Lemma type_without_iter_is_rejected_witness :
  let cls := PyClass "Argv" None (Some [VStr "ls"; VStr "-la"]) in
  iterable (TClass cls) = true
  /\ get_subprocess_output execute 3 (VRef 0) VNone None
       (State [OInst cls [("__iter__", VCallable "Argv.walk")]] "out" [])
     = (Raise (TypeError "command must be a sequence or string"),
        State [OInst cls [("__iter__", VCallable "Argv.walk")]; OList []]
              "out" []).
Proof.
  intros cls. split; [reflexivity|].
  apply (type_without_iter_is_rejected execute 3 (VRef 0) VNone None
           (State [OInst cls [("__iter__", VCallable "Argv.walk")]] "out" [])
           (TClass cls));
    reflexivity.
Defined.

(** A set holding a number and [None], and a generator: both go through,
    elements as they are. *)
Lemma iterable_command_accepted_witness :
  get_subprocess_output execute 3 (VRef 0) VNone None
    (State [OSet [VInt 1; VNone]] "out" [])
  = (Ok (VStr "out"),
     State [OSet [VInt 1; VNone]; OList [VInt 1; VNone]] "out"
           [([VInt 1; VNone], VBool true)])
  /\ get_subprocess_output execute 3 (VRef 0) VNone None
       (State [OGen [VStr "ls"; VStr "-la"] None] "out" [])
     = (Ok (VStr "out"),
        State [OGen [] None; OList [VStr "ls"; VStr "-la"]] "out"
              [([VStr "ls"; VStr "-la"], VBool true)]).
Proof.
  split.
  - apply (iterable_command_accepted execute 3 (VRef 0) VNone None
             (State [OSet [VInt 1; VNone]] "out" []) TSet [VInt 1; VNone]);
      [reflexivity | reflexivity | reflexivity | reflexivity | simpl; lia].
  - apply (iterable_command_accepted execute 3 (VRef 0) VNone None
             (State [OGen [VStr "ls"; VStr "-la"] None] "out" []) TGenerator
             [VStr "ls"; VStr "-la"]);
      [reflexivity | reflexivity | reflexivity | reflexivity | simpl; lia].
Defined.

(** * Further properties of the function *)

(** ** The tokens [split()] returns *)

Lemma split_ws_tokens {A} (isspace : A -> bool) (s : list A) :
  forall cur tok,
    forallb (fun c => negb (isspace c)) cur = true ->
    In tok (split_ws isspace cur s) ->
    tok <> [] /\ forallb (fun c => negb (isspace c)) tok = true.
Proof.
  assert (Hrev : forall cur : list A,
             cur <> [] ->
             forallb (fun c => negb (isspace c)) cur = true ->
             rev cur <> []
             /\ forallb (fun c => negb (isspace c)) (rev cur) = true).
  { intros cur Hne Hcur. split.
    - intros Hr. apply Hne. rewrite <- (rev_involutive cur), Hr. reflexivity.
    - apply forallb_forall. intros c Hc. apply in_rev in Hc.
      exact (proj1 (forallb_forall _ _) Hcur c Hc). }
  induction s as [|c s IH]; intros cur tok Hcur Hin; simpl in Hin.
  - destruct cur as [|c0 cur]; [contradiction|].
    destruct Hin as [<-|[]]. apply Hrev; [discriminate | exact Hcur].
  - destruct (isspace c) eqn:Hc.
    + destruct cur as [|c0 cur].
      * exact (IH [] tok eq_refl Hin).
      * destruct Hin as [<-|Hin].
        -- apply Hrev; [discriminate | exact Hcur].
        -- exact (IH [] tok eq_refl Hin).
    + apply (IH (c :: cur) tok); [|exact Hin].
      simpl. rewrite Hc, Hcur. reflexivity.
Qed.

Lemma split_ws_concat {A} (isspace : A -> bool) (s : list A) :
  forall cur,
    concat (split_ws isspace cur s)
    = rev cur ++ List.filter (fun c => negb (isspace c)) s.
Proof.
  induction s as [|c s IH]; intros cur; simpl.
  - destruct cur; simpl; rewrite ?app_nil_r; reflexivity.
  - destruct (isspace c) eqn:Hc; simpl.
    + destruct cur as [|c0 cur].
      * rewrite IH. reflexivity.
      * simpl concat. rewrite IH. reflexivity.
    + rewrite IH. simpl. rewrite <- app_assoc. reflexivity.
Qed.

(** X5. Every token that [split()] returns has at least one character and
    no whitespace in it, for byte strings and unicode strings alike. *)
Theorem split_tokens_nonblank {A} (isspace : A -> bool) (s tok : list A) :
  In tok (split_ws isspace [] s) ->
  tok <> [] /\ forallb (fun c => negb (isspace c)) tok = true.
Proof. apply split_ws_tokens. reflexivity. Qed.

(** X6. Splitting loses and adds nothing but whitespace: the tokens, one
    after the other, are the characters of the string that are not
    whitespace, in the order of the string. *)
Theorem split_keeps_characters {A} (isspace : A -> bool) (s : list A) :
  concat (split_ws isspace [] s)
  = List.filter (fun c => negb (isspace c)) s.
Proof. apply (split_ws_concat isspace s []). Qed.

(** ** The function as a whole *)

Section Whole.

Context {W : Type}.
Variable prim : list pyval -> pyval -> W -> (pyval + pyexn) * W.

Implicit Types (st : state W) (body : pyval -> M W unit) (w : W).
Implicit Types (P : state W -> Prop) (l a : loc).



(** *** What the loop never writes to *)












(** *** The verdict *)




Local Abbreviation run := (get_subprocess_output prim).

(** X1. Whatever the command and however the call ends, the primitive is
    called once at most. Either the call ends before line 28, without a
    value and with the world as it was, or the primitive is called exactly
    once, on the contents of the list made on line 18, and its outcome and
    its effect on the world are those of the call. *)
Theorem at_most_one_call fuel command log flag st :
  let flag' := default (VBool true) flag in
  let r := run fuel command log flag st in
  (calls r.2 = calls st /\ world r.2 = world st /\ forall v, r.1 <> Ok v)
  \/ (exists args,
        heap r.2 !! length (heap st) = Some (OList args)
        /\ calls r.2 = calls st ++ [(args, flag')]
        /\ world r.2 = (prim args flag' (world st)).2
        /\ r.1 = lift_result (prim args flag' (world st)).1).
Proof.
  intros flag' r. subst r. rewrite get_subprocess_output_normalize.
  destruct (normalize fuel command st) as [[v|e|] st1] eqn:Hn;
    destruct (normalize_frame _ _ _ _ _ Hn) as [(Hc & Hw & args & Ha) Hv].
  - right. exists args. specialize (Hv _ eq_refl). subst v.
    rewrite (bind_Ok _ _ _ _ _ Hn).
    rewrite (subprocess_output_list prim _ _ _ _ Ha). simpl.
    fold flag'. rewrite Hc, Hw. auto.
  - left. rewrite (bind_Raise _ _ _ _ _ Hn). simpl.
    repeat split; auto; discriminate.
  - left. rewrite (bind_OutOfFuel _ _ _ _ Hn). simpl.
    repeat split; auto; discriminate.
Qed.



(** X4. A dict given as the command is delegated as the list of its keys,
    in iteration order; its values play no part, and the dict is left as it
    was. *)
Theorem dict_command_delegates_keys fuel l log flag st entries :
  heap st !! l = Some (ODict entries) ->
  length entries < fuel ->
  let flag' := default (VBool true) flag in
  let keys := fst <$> entries in
  run fuel (VRef l) log flag st
  = (lift_result (prim keys flag' (world st)).1,
     State (heap st ++ [OList keys])
           (prim keys flag' (world st)).2
           (calls st ++ [(keys, flag')])).
Proof.
  intros Hl Hfuel flag' keys. destruct st as [h w cs]. simpl in Hl |- *.
  assert (Hn : normalize fuel (VRef l) (State h w cs)
               = (Ok (VRef (length h)), State (h ++ [OList keys]) w cs)).
  { replace (h ++ [OList keys]) with (heap_after h (VRef l) keys)
      by (unfold heap_after; rewrite Hl; reflexivity).
    apply (normalize_iterable fuel (VRef l) TDict h w cs keys None).
    - simpl. rewrite Hl. reflexivity.
    - reflexivity.
    - reflexivity.
    - simpl. rewrite Hl. reflexivity.
    - subst keys. rewrite length_fmap. exact Hfuel. }
  rewrite (run_delegates prim fuel (VRef l) log flag _ _ _ keys Hn);
    [reflexivity|].
  simpl. apply list_lookup_middle. reflexivity.
Qed.

(** X8. An iterable without end, [itertools.repeat(x)], passes the test
    on line 22 and never leaves the loop on lines 23 and 24: however many
    steps the loop is given, the call has not returned by then, nothing has
    been handed to the primitive, and the list holds one [x] for each
    step taken. *)
Theorem endless_command_never_delegates fuel l log flag st x :
  heap st !! l = Some (ORepeat x) ->
  get_subprocess_output prim fuel (VRef l) log flag st
  = (OutOfFuel,
     State (heap st ++ [OList (replicate fuel x)]) (world st) (calls st)).
Proof.
  intros Hl. destruct st as [h w cs]. simpl in Hl |- *.
  rewrite get_subprocess_output_normalize. apply bind_OutOfFuel.
  rewrite (normalize_iter_branch fuel (VRef l) TRepeat h w cs);
    [|simpl; rewrite Hl; reflexivity | reflexivity | reflexivity].
  assert (Hl1 : (h ++ [OList []]) !! l = Some (ORepeat x))
    by (apply lookup_app_l_Some; exact Hl).
  apply bind_OutOfFuel. unfold for_in.
  rewrite (bind_Ok _ _ _ _ _
             (py_iter_ref _ w cs _ _ (ItGen l) Hl1 eq_refl)).
  rewrite (for_loop_append_repeat w cs (length h) l x fuel _ [] Hl1)
    by (apply list_lookup_middle; reflexivity).
  simpl. rewrite insert_last. reflexivity.
Qed.



End Whole.

(** ** The further properties on concrete calls *)



Lemma dict_command_delegates_keys_witness :
  get_subprocess_output execute 3 (VRef 0) VNone None
    (State [ODict [(VStr "ls", VInt 1); (VStr "-la", VNone)]] "out" [])
  = (Ok (VStr "out"),
     State [ODict [(VStr "ls", VInt 1); (VStr "-la", VNone)];
            OList [VStr "ls"; VStr "-la"]]
           "out" [([VStr "ls"; VStr "-la"], VBool true)]).
Proof.
  apply (dict_command_delegates_keys execute 3 0 VNone None
           (State [ODict [(VStr "ls", VInt 1); (VStr "-la", VNone)]] "out" [])
           [(VStr "ls", VInt 1); (VStr "-la", VNone)]);
    [reflexivity | simpl; lia].
Defined.

Lemma split_tokens_nonblank_witness :
  list_ascii_of_string "-la" <> []
  /\ forallb (fun c => negb (Py_ISSPACE c)) (list_ascii_of_string "-la")
     = true.
Proof.
  apply (split_tokens_nonblank Py_ISSPACE (list_ascii_of_string "ls  -la ")
           (list_ascii_of_string "-la")).
  simpl. auto.
Defined.

Lemma endless_command_never_delegates_witness :
  get_subprocess_output execute 3 (VRef 0) VNone None
    (State [ORepeat (VStr "y")] "out" [])
  = (OutOfFuel,
     State [ORepeat (VStr "y"); OList [VStr "y"; VStr "y"; VStr "y"]]
           "out" []).
Proof.
  apply (endless_command_never_delegates execute 3 0 VNone None
           (State [ORepeat (VStr "y")] "out" []) (VStr "y")).
  reflexivity.
Defined.


